(** * gyre client: request assembly, submission loops and artifact demultiplexing

    A shallow embedding of [client.py] (the modified Stability SDK client shipped
    with gyre) and the properties of its request assembler ([generate]), its
    asynchronous polling loop ([emit_async_request]), its artifact demultiplexer
    ([process_artifacts_from_answers]) and its LoRA prompt builder
    ([lora_to_prompt]).

    Python dictionaries are finite maps, Python floats are IEEE binary64 numbers,
    exceptions and the mutable state the code touches (the random generator, the
    UUID source, list objects shared by reference, files written, RPC calls made)
    are threaded through a state-and-exception monad. *)

From Stdlib Require Import ZArith String List Bool Lia.
From Stdlib Require Import PrimFloat DecimalString.
From stdpp Require Import gmap strings list.

Local Open Scope string_scope.
Local Open Scope Z_scope.
Local Set Warnings "-inexact-float".

(** ** Python values *)

Module Py.

(** [bytes] objects. *)
Definition bytes := list Byte.byte.

(** The exceptions [client.py] raises itself, the one [list.pop] raises on an
    empty list, and the one raised for a file that cannot be opened, by
    [safe_open] for reading or by [open] for writing. *)
Inductive exn :=
| ValueError (msg : string)
| TypeError (msg : string)
| IndexError (msg : string)
| FileError (path : string).

(** Truth value testing: [if x:] and [not x]. *)
Class Truthy (A : Type) := truthy : A -> bool.
Global Hint Mode Truthy ! : typeclass_instances.

(** A float is false exactly when it compares equal to zero ([-0.0] is false,
    [nan] is true). *)
Global Instance float_truthy : Truthy float :=
  fun x => negb (PrimFloat.eqb x 0%float).
Global Instance int_truthy : Truthy Z := fun z => negb (z =? 0).
Global Instance bool_truthy : Truthy bool := fun b => b.
Global Instance str_truthy : Truthy string :=
  fun s => match s with EmptyString => false | String _ _ => true end.
Global Instance list_truthy {A} : Truthy (list A) :=
  fun l => match l with [] => false | _ :: _ => true end.
(** [None] is false; any other object answers for itself. *)
Global Instance option_truthy {A} `{Truthy A} : Truthy (option A) :=
  fun o => match o with None => false | Some x => truthy x end.

(** [str(n)] for a non-negative integer, as the f-strings print it. *)
Definition str_of_nat (n : nat) : string :=
  NilZero.string_of_uint (Nat.to_uint n).

End Py.
Export Py.

(** ** The generation protocol messages *)

Module generation.

(** Modelled from the spec: the [ArtifactType] enum of the generated module
    [generation_pb2], which is not part of the sources; the constructors are
    the members [client.py] names, [ARTIFACT_OTHER] stands for every other. *)
Inductive ArtifactType :=
| ARTIFACT_IMAGE | ARTIFACT_MASK | ARTIFACT_DEPTH | ARTIFACT_LORA
| ARTIFACT_CLASSIFICATIONS | ARTIFACT_TEXT | ARTIFACT_OTHER (n : Z).

(** Modelled from the spec: [ArtifactStage], of which the client uses the one
    member. *)
Inductive ArtifactStage := ARTIFACT_AFTER_ADJUSTMENTS.

(** Modelled from the spec: [ChannelSource], the members used by the alpha
    mask adjustment. *)
Inductive ChannelSource := CHANNEL_A | CHANNEL_DISCARD.

(** Modelled from the spec: [FinishReason]; [FILTER] marks a filtered
    artifact. *)
Inductive FinishReason := FINISH_NULL | FILTER | FINISH_OTHER (n : Z).

(** Modelled from the spec: the [ImageAdjustment] message, a one-of; the
    three alternatives the client builds. *)
Inductive ImageAdjustment :=
| Adjust_channels (r g b a : ChannelSource)
| Adjust_invert
| Adjust_depth.

(** Modelled from the spec: [ArtifactReference]. *)
Record ArtifactReference := mkArtifactReference {
  ref_uuid : string;
  ref_stage : ArtifactStage
}.

(** Modelled from the spec: [LoraWeight] and [Lora]; [lora_payload] is the
    serialized tensor archive. *)
Record LoraWeight := mkLoraWeight {
  model_name : string;
  weight : float
}.

Record Lora := mkLora {
  lora_payload : bytes;
  weights : list LoraWeight
}.

(** Modelled from the spec: the payload one-of of an [Artifact]. *)
Inductive ArtifactData :=
| NoData
| Binary (b : bytes)
| Text (s : string)
| Classifier (report : bytes)
| Ref (r : ArtifactReference)
| LoraData (l : Lora).

(** Modelled from the spec: the [Artifact] message, with the fields the
    client reads or writes. *)
Record Artifact := mkArtifact {
  type : ArtifactType;
  uuid : string;
  mime : string;
  data : ArtifactData;
  adjustments : list ImageAdjustment;
  finish_reason : FinishReason
}.

(** Reading [artifact.binary] of an artifact holding another payload gives
    the empty default. *)
Definition binary (a : Artifact) : bytes :=
  match data a with Binary b => b | _ => [] end.

(** Modelled from the spec: [PromptParameters]; a field is [None] when the
    constructor was not given it. *)
Record PromptParameters := mkPromptParameters {
  init : option bool;
  prompt_weight : option float
}.

(** Modelled from the spec: the one-of of a [Prompt]. *)
Inductive PromptData :=
| PromptUnset
| PromptText (text : string)
| PromptArtifact (artifact : Artifact).

Record Prompt := mkPrompt {
  content : PromptData;
  parameters : option PromptParameters
}.

(** Modelled from the spec: the sampler settings messages.  Every field is
    optional: [None] is a field the constructor call did not set. *)
Record ChurnSettings := mkChurnSettings {
  churn : option float;
  churn_tmin : option float;
  churn_tmax : option float
}.

Record SigmaParameters := mkSigmaParameters {
  sigma_min : option float;
  sigma_max : option float;
  karras_rho : option float
}.

Record SamplerParameters := mkSamplerParameters {
  eta : option float;
  cfg_scale : option float;
  noise_type : option Z;
  sampler_churn : option ChurnSettings;
  sampler_sigma : option SigmaParameters
}.

Record ScheduleParameters := mkScheduleParameters {
  schedule_start : option float;
  schedule_end : option float
}.

(** Modelled from the spec: the guidance messages. *)
Record Model := mkModel { alias : string }.

Record CutoutParameters := mkCutoutParameters { count : Z }.

Record GuidanceInstanceParameters := mkGuidanceInstanceParameters {
  guidance_strength : option float;
  models : list Model;
  cutouts : option CutoutParameters;
  guidance_prompt : option Prompt
}.

(** [GuidancePreset] is an integer enum whose zero is the default. *)
Definition GUIDANCE_PRESET_NONE : Z := 0.

Record GuidanceParameters := mkGuidanceParameters {
  guidance_preset : Z;
  instances : list GuidanceInstanceParameters
}.

(** Modelled from the spec: [StepParameter], the container of the optional
    sub-blocks. *)
Record StepParameter := mkStepParameter {
  scaled_step : option float;
  sampler : option SamplerParameters;
  schedule : option ScheduleParameters;
  guidance : option GuidanceParameters
}.

Record HiresFixParameters := mkHiresFixParameters {
  enable : option bool;
  oos_fraction : option float
}.

(** Modelled from the spec: [TransformType], here always a diffusion
    sampler (a [DiffusionSampler] enum value). *)
Inductive TransformType := Transform_diffusion (diffusion : Z).

Record ImageParameters := mkImageParameters {
  transform : TransformType;
  height : Z;
  width : Z;
  seed : list Z;
  steps : Z;
  samples : Z;
  step_parameters : list StepParameter;
  hires : option HiresFixParameters;
  tiling : bool
}.

(** Modelled from the spec: the [Request] message (the spec's
    GenerationRequest). *)
Record Request := mkRequest {
  engine_id : string;
  rq_request_id : string;
  rq_prompt : list Prompt;
  rq_image : ImageParameters
}.

(** Modelled from the spec: one [Answer] of a response stream, and the
    response of one [AsyncResult] poll. *)
Record Answer := mkAnswer {
  answer_id : string;
  request_id : string;
  artifacts : list Artifact
}.

Record AsyncAnswer := mkAsyncAnswer {
  answer : list Answer;
  complete : bool
}.

Record AsyncHandle := mkAsyncHandle { async_handle : string }.

End generation.

(** ** Keyword dictionaries

    [generate] collects the optional settings in dictionaries and builds the
    messages by unpacking a dictionary into the keyword arguments of the
    message constructor. *)

Inductive kwarg :=
| KFloat (x : float)
| KInt (z : Z)
| KBool (b : bool)
| KChurn (c : generation.ChurnSettings)
| KSigma (s : generation.SigmaParameters)
| KSampler (s : generation.SamplerParameters)
| KSchedule (s : generation.ScheduleParameters)
| KGuidance (g : generation.GuidanceParameters).

Definition as_float (k : kwarg) : option float :=
  match k with KFloat x => Some x | _ => None end.
Definition as_int (k : kwarg) : option Z :=
  match k with KInt z => Some z | _ => None end.
Definition as_bool (k : kwarg) : option bool :=
  match k with KBool b => Some b | _ => None end.
Definition as_churn (k : kwarg) : option generation.ChurnSettings :=
  match k with KChurn c => Some c | _ => None end.
Definition as_sigma (k : kwarg) : option generation.SigmaParameters :=
  match k with KSigma s => Some s | _ => None end.
Definition as_sampler (k : kwarg) : option generation.SamplerParameters :=
  match k with KSampler s => Some s | _ => None end.
Definition as_schedule (k : kwarg) : option generation.ScheduleParameters :=
  match k with KSchedule s => Some s | _ => None end.
Definition as_guidance (k : kwarg) : option generation.GuidanceParameters :=
  match k with KGuidance g => Some g | _ => None end.

(** The message constructors called on an unpacked dictionary: a key of the
    dictionary sets the field of that name, an absent key leaves it unset. *)
Definition ChurnSettings_kw (kw : gmap string kwarg) : generation.ChurnSettings :=
  {| generation.churn := kw !! "churn" ≫= as_float;
     generation.churn_tmin := kw !! "churn_tmin" ≫= as_float;
     generation.churn_tmax := kw !! "churn_tmax" ≫= as_float |}.

Definition SigmaParameters_kw (kw : gmap string kwarg) : generation.SigmaParameters :=
  {| generation.sigma_min := kw !! "sigma_min" ≫= as_float;
     generation.sigma_max := kw !! "sigma_max" ≫= as_float;
     generation.karras_rho := kw !! "karras_rho" ≫= as_float |}.

Definition SamplerParameters_kw (kw : gmap string kwarg) : generation.SamplerParameters :=
  {| generation.eta := kw !! "eta" ≫= as_float;
     generation.cfg_scale := kw !! "cfg_scale" ≫= as_float;
     generation.noise_type := kw !! "noise_type" ≫= as_int;
     generation.sampler_churn := kw !! "churn" ≫= as_churn;
     generation.sampler_sigma := kw !! "sigma" ≫= as_sigma |}.

Definition StepParameter_kw (kw : gmap string kwarg) : generation.StepParameter :=
  {| generation.scaled_step := kw !! "scaled_step" ≫= as_float;
     generation.sampler := kw !! "sampler" ≫= as_sampler;
     generation.schedule := kw !! "schedule" ≫= as_schedule;
     generation.guidance := kw !! "guidance" ≫= as_guidance |}.

Definition HiresFixParameters_kw (kw : gmap string kwarg) : generation.HiresFixParameters :=
  {| generation.enable := kw !! "enable" ≫= as_bool;
     generation.oos_fraction := kw !! "oos_fraction" ≫= as_float |}.

(** ** The world the client runs in *)

(** Addresses of Python list objects: two names bound to one address are one
    list, and a mutation through either is seen through both. *)
Definition loc := positive.

(** The four remote operations of the service stub. *)
Inductive RpcCall :=
| Generate (rq : generation.Request)
| AsyncGenerate (rq : generation.Request)
| AsyncResult (handle : generation.AsyncHandle)
| AsyncCancel (handle : generation.AsyncHandle).

Record World := mkWorld {
  (** the raw values the random generator produces, and how many were drawn *)
  entropy : nat -> Z;
  rand_calls : nat;
  (** the strings [uuid.uuid4()] produces, and how many were minted *)
  uuid_source : nat -> string;
  uuid_calls : nat;
  (** the list objects *)
  heap : gmap loc (list float);
  (** the files written *)
  disk : gmap string bytes;
  (** the remote calls made, latest first *)
  rpc_log : list RpcCall;
  (** the lines printed, latest first, and the time spent in [time.sleep] *)
  stdout : list string;
  slept : Z
}.

(** A computation either returns or raises; what it did to the world before
    raising stays done. *)
Inductive result (A : Type) :=
| Ok (a : A)
| Raise (e : exn).
Arguments Ok {A} a.
Arguments Raise {A} e.

Definition M (A : Type) : Type := World -> result A * World.

Definition ret {A} (a : A) : M A := fun w => (Ok a, w).
Definition raise {A} (e : exn) : M A := fun w => (Raise e, w).
Definition bind {A B} (c : M A) (k : A -> M B) : M B :=
  fun w => match c w with
           | (Ok a, w') => k a w'
           | (Raise e, w') => (Raise e, w')
           end.

Notation "x <- c1 ;; c2" := (bind c1 (fun x => c2))
  (at level 100, c1 at next level, right associativity).
Notation "c1 ;; c2" := (bind c1 (fun _ => c2))
  (at level 100, right associativity).

(** [for x in xs: body], threading an accumulator. *)
Fixpoint for_each {A B} (xs : list A) (body : B -> A -> M B) (acc : B) : M B :=
  match xs with
  | [] => ret acc
  | x :: xs' => acc' <- body acc x ;; for_each xs' body acc'
  end.

(** [random.randrange(start, stop)]: one raw draw, reduced to the half-open
    range; [stop] itself is never returned. *)
Definition randrange (start stop : Z) : M Z :=
  fun w =>
    (Ok (start + entropy w (rand_calls w) `mod` (stop - start)),
     mkWorld (entropy w) (S (rand_calls w)) (uuid_source w) (uuid_calls w)
             (heap w) (disk w) (rpc_log w) (stdout w) (slept w)).

(** [str(uuid.uuid4())]. *)
Definition uuid4 : M string :=
  fun w =>
    (Ok (uuid_source w (uuid_calls w)),
     mkWorld (entropy w) (rand_calls w) (uuid_source w) (S (uuid_calls w))
             (heap w) (disk w) (rpc_log w) (stdout w) (slept w)).

(** Reading the list at an address; an address that holds no list reads as the
    empty list. *)
Definition deref (l : loc) : M (list float) :=
  fun w => (Ok (heap w !!! l), w).

(** [weights.pop(0)]: removes the first element of the list object itself. *)
Definition pop0 (l : loc) : M float :=
  fun w =>
    match heap w !!! l with
    | [] => (Raise (IndexError "pop from empty list"), w)
    | x :: rest =>
        (Ok x,
         mkWorld (entropy w) (rand_calls w) (uuid_source w) (uuid_calls w)
                 (<[l := rest]> (heap w)) (disk w) (rpc_log w) (stdout w) (slept w))
    end.

(** [with open(path, "wb") as f: f.write(contents)].  [can_open] tells the
    paths [open] accepts for writing; on any other [open] raises and nothing
    is written. *)
Definition write_file (can_open : string -> bool) (path : string) (contents : bytes)
  : M unit :=
  fun w =>
    if can_open path then
      (Ok tt,
       mkWorld (entropy w) (rand_calls w) (uuid_source w) (uuid_calls w)
               (heap w) (<[path := contents]> (disk w)) (rpc_log w) (stdout w) (slept w))
    else (Raise (FileError path), w).

(** A call through the service stub. *)
Definition rpc (c : RpcCall) : M unit :=
  fun w =>
    (Ok tt,
     mkWorld (entropy w) (rand_calls w) (uuid_source w) (uuid_calls w)
             (heap w) (disk w) (c :: rpc_log w) (stdout w) (slept w)).

(** [print(line)] and [time.sleep(seconds)]. *)
Definition print (line : string) : M unit :=
  fun w =>
    (Ok tt,
     mkWorld (entropy w) (rand_calls w) (uuid_source w) (uuid_calls w)
             (heap w) (disk w) (rpc_log w) (line :: stdout w) (slept w)).

Definition sleep (seconds : Z) : M unit :=
  fun w =>
    (Ok tt,
     mkWorld (entropy w) (rand_calls w) (uuid_source w) (uuid_calls w)
             (heap w) (disk w) (rpc_log w) (stdout w) (slept w + seconds)).

(** ** The libraries the client calls

    Pillow images, the safetensors reader, the repository's tensor serializer,
    [mimetypes] and the protobuf printers are used as black boxes. *)
Class Libraries := {
  Image : Type;
  (** [im.save(buf, format="PNG"); buf.getvalue()], for images Pillow can
      write as PNG: a failing [save] is not modelled *)
  save_png : Image -> bytes;
  (** splitting into four bands, merging the alpha band three times and
      inverting; [None] when the image does not have four bands *)
  alpha_mask : Image -> option Image;
  (** [safe_open(path, ...)]: [None] when the file cannot be opened *)
  safe_open : string -> option bytes;
  serialize_safetensor : bytes -> bytes;
  (** [mimetypes.guess_extension] *)
  guess_extension : string -> option string;
  (** [MessageToJson(artifact.classifier).encode("utf-8")],
      [MessageToJson(artifact).encode("utf-8")], [artifact.SerializeToString()] *)
  classifier_to_json : generation.Artifact -> bytes;
  artifact_to_json : generation.Artifact -> bytes;
  SerializeToString : generation.Artifact -> bytes
}.

(** ** The arguments of [generate] *)

(** [prompt]: a string, a [Prompt], [None], or a list whose elements are
    strings, [Prompt]s or something else. *)
Inductive PromptElem :=
| ElemStr (s : string)
| ElemPrompt (p : generation.Prompt)
| ElemOther.

Inductive PromptArg :=
| ArgNone
| ArgStr (s : string)
| ArgPrompt (p : generation.Prompt)
| ArgList (l : list PromptElem).

(** [seed]: [None], an integer or a sequence of integers. *)
Inductive SeedArg :=
| SeedNone
| SeedInt (z : Z)
| SeedSeq (l : list Z).

Global Instance SeedArg_truthy : Truthy SeedArg :=
  fun s => match s with
           | SeedNone => false
           | SeedInt z => truthy z
           | SeedSeq l => truthy l
           end.

(** [guidance_prompt]: [None], a string, a [Prompt] or any other (true)
    object. *)
Inductive GuidancePromptArg :=
| GuidanceNone
| GuidanceStr (s : string)
| GuidancePrompt (p : generation.Prompt)
| GuidanceOther.

Global Instance GuidancePromptArg_truthy : Truthy GuidancePromptArg :=
  fun g => match g with
           | GuidanceNone => false
           | GuidanceStr s => truthy s
           | GuidancePrompt _ => true
           | GuidanceOther => true
           end.

Record StabilityInference := mkStabilityInference {
  verbose : bool;
  engine : string
}.

(** What a call of a generator function returns: the suspended body with its
    arguments; nothing of the body has run. *)
Inductive Generator :=
| emit_request_suspended
    (prompt : list generation.Prompt) (image_parameters : generation.ImageParameters)
| emit_async_request_suspended
    (prompt : list generation.Prompt) (image_parameters : generation.ImageParameters).

Definition generator_prompt (g : Generator) : list generation.Prompt :=
  match g with
  | emit_request_suspended p _ | emit_async_request_suspended p _ => p
  end.

Definition generator_image_parameters (g : Generator) : generation.ImageParameters :=
  match g with
  | emit_request_suspended _ ip | emit_async_request_suspended _ ip => ip
  end.

Section Client.
Context `{Libraries}.

(** The keyword arguments of [generate]; [safety] and [classifiers] are
    unused by the body and left out.  [cfg_scale], the schedule bounds and
    the integer settings are passed on as they come. *)
Record GenerateArgs := mkGenerateArgs {
  arg_prompt : PromptArg;
  arg_negative_prompt : option string;
  arg_init_image : option Image;
  arg_mask_image : option Image;
  arg_mask_from_image_alpha : bool;
  arg_depth_image : option Image;
  arg_depth_from_image : bool;
  arg_height : Z;
  arg_width : Z;
  arg_start_schedule : float;
  arg_end_schedule : float;
  arg_cfg_scale : float;
  arg_eta : option float;
  arg_churn : option float;
  arg_churn_tmin : option float;
  arg_churn_tmax : option float;
  arg_sigma_min : option float;
  arg_sigma_max : option float;
  arg_karras_rho : option float;
  arg_noise_type : option Z;
  arg_sampler : Z;
  arg_steps : Z;
  arg_seed : SeedArg;
  arg_samples : Z;
  arg_guidance_preset : Z;
  arg_guidance_cuts : Z;
  arg_guidance_strength : option float;
  arg_guidance_prompt : GuidancePromptArg;
  arg_guidance_models : option (list string);
  arg_hires_fix : option bool;
  arg_hires_oos_fraction : option float;
  arg_tiling : bool;
  arg_lora : option (list (string * loc));
  arg_as_async : bool
}.

(** ** Prompt builders *)

Definition image_to_prompt (im : Image) (init mask depth use_alpha : bool)
  : M generation.Prompt :=
  if init && mask then raise (ValueError "init and mask cannot both be True")
  else
    im <- (if use_alpha then
             match alpha_mask im with
             | Some im' => ret im'
             | None => raise (ValueError "not enough values to unpack")
             end
           else ret im) ;;
    let buf := save_png im in
    artifact_uuid <- uuid4 ;;
    let type := generation.ARTIFACT_IMAGE in
    let type := if mask then generation.ARTIFACT_MASK else type in
    let type := if depth then generation.ARTIFACT_DEPTH else type in
    ret (generation.mkPrompt
           (generation.PromptArtifact
              (generation.mkArtifact type artifact_uuid "" (generation.Binary buf)
                                     [] generation.FINISH_NULL))
           (Some (generation.mkPromptParameters (Some init) None))).

Definition ref_to_prompt (ref_uuid : string) (mask depth : bool) : generation.Prompt :=
  let type := generation.ARTIFACT_IMAGE in
  let type := if mask then generation.ARTIFACT_MASK else type in
  let type := if depth then generation.ARTIFACT_DEPTH else type in
  generation.mkPrompt
    (generation.PromptArtifact
       (generation.mkArtifact type "" ""
          (generation.Ref
             (generation.mkArtifactReference ref_uuid
                                             generation.ARTIFACT_AFTER_ADJUSTMENTS))
          [] generation.FINISH_NULL))
    None.

(** [lora.weights.append(LoraWeight(model_name=..., weight=weights.pop(0)))] *)
Definition append_weight (lora : generation.Lora) (name : string) (weights : loc)
  : M generation.Lora :=
  w <- pop0 weights ;;
  ret (generation.mkLora (generation.lora_payload lora)
         (generation.weights lora ++ [generation.mkLoraWeight name w])%list).

Definition lora_to_prompt (path : string) (weights : loc) : M generation.Prompt :=
  safetensors <- match safe_open path with
                 | Some f => ret f
                 | None => raise (FileError path)
                 end ;;
  let lora := generation.mkLora (serialize_safetensor safetensors) [] in
  ws <- deref weights ;;
  lora <- (if truthy ws then append_weight lora "unet" weights else ret lora) ;;
  ws <- deref weights ;;
  lora <- (if truthy ws then append_weight lora "text_encoder" weights else ret lora) ;;
  ret (generation.mkPrompt
         (generation.PromptArtifact
            (generation.mkArtifact generation.ARTIFACT_LORA "" ""
                                   (generation.LoraData lora) [] generation.FINISH_NULL))
         None).

(** ** The artifact demultiplexer *)

(** The extension and the contents decided by the artifact's type. *)
Definition ext_and_contents (artifact : generation.Artifact) : option string * bytes :=
  match generation.type artifact with
  | generation.ARTIFACT_IMAGE =>
      (guess_extension (generation.mime artifact), generation.binary artifact)
  | generation.ARTIFACT_CLASSIFICATIONS => (Some ".pb.json", classifier_to_json artifact)
  | generation.ARTIFACT_TEXT => (Some ".pb.json", artifact_to_json artifact)
  | _ => (Some ".pb", SerializeToString artifact)
  end.

(** How an f-string prints the extension: [None] prints as the word. *)
Definition format_ext (ext : option string) : string :=
  match ext with Some e => e | None => "None" end.

(** [f"{prefix}-{resp.request_id}-{resp.answer_id}-{idx}"] *)
Definition artifact_p (prefix : string) (resp : generation.Answer) (idx : nat) : string :=
  prefix ++ "-" ++ generation.request_id resp ++ "-" ++ generation.answer_id resp
         ++ "-" ++ str_of_nat idx.

Definition out_p (prefix : string) (resp : generation.Answer) (idx : nat)
           (artifact : generation.Artifact) : string :=
  artifact_p prefix resp idx ++ format_ext (fst (ext_and_contents artifact)).

(** The body of the inner loop: the state is the running index and the
    pairs yielded so far.  The function is modelled with [verbose] off, its
    default, so no log line is written.  An [open] that fails ends the run
    before the pair is yielded. *)
Definition process_artifact (can_open : string -> bool)
           (prefix : string) (write : bool) (resp : generation.Answer)
           (st : nat * list (string * generation.Artifact))
           (artifact : generation.Artifact)
  : M (nat * list (string * generation.Artifact)) :=
  let idx := fst st in
  let contents := snd (ext_and_contents artifact) in
  (if write then write_file can_open (out_p prefix resp idx artifact) contents
   else ret tt) ;;
  ret (S idx, (snd st ++ [(out_p prefix resp idx artifact, artifact)])%list).

(** The generator run to its end: the pairs it yields, in order. *)
Definition process_artifacts_from_answers (can_open : string -> bool) (prefix : string)
           (answers : list generation.Answer) (write : bool)
  : M (list (string * generation.Artifact)) :=
  st <- for_each answers
          (fun st resp =>
             for_each (generation.artifacts resp)
                      (process_artifact can_open prefix write resp) st)
          (O, []) ;;
  ret (snd st).

(** ** Asynchronous submission *)


(** How a pass through a loop body ends. *)
Inductive Control := Continue | Break.

(** One pass through the body of the [while True] loop, given the response
    the poll receives: the poll, the answers yielded, the message printed on
    completion, the sleep.  The body has no [break] and no [return]. *)
Definition async_loop_body (handle : generation.AsyncHandle)
           (answers : generation.AsyncAnswer) (yielded : list generation.Answer)
  : M (list generation.Answer * Control) :=
  rpc (AsyncResult handle) ;;
  let yielded := (yielded ++ generation.answer answers)%list in
  (if generation.complete answers then print "Done" else ret tt) ;;
  sleep 5 ;;
  ret (yielded, Continue).

(** Where the consumer of the generator stands once the scripted responses
    are used up: the generator returned, or it is inside a further poll. *)
Inductive LoopStatus := Returned | Polling.

(** The loop driven against the responses the successive polls receive. *)
Fixpoint async_loop (handle : generation.AsyncHandle)
         (script : list generation.AsyncAnswer) (yielded : list generation.Answer)
  : M (list generation.Answer * LoopStatus) :=
  match script with
  | [] => rpc (AsyncResult handle) ;; ret (yielded, Polling)
  | answers :: script' =>
      r <- async_loop_body handle answers yielded ;;
      match snd r with
      | Break => ret (fst r, Returned)
      | Continue => async_loop handle script' (fst r)
      end
  end.


(** ** [generate]: normalizing the inputs *)

(** [x is None] *)
Definition is_None {A} (x : option A) : bool :=
  match x with None => true | Some _ => false end.

Definition prompt_is_None (prompt : PromptArg) : bool :=
  match prompt with ArgNone => true | _ => false end.

(** The seed: a false seed ([None], zero, an empty sequence) is replaced by
    one random draw, an integer is wrapped, a sequence is copied. *)
Definition normalize_seed (seed : SeedArg) : M (list Z) :=
  if negb (truthy seed) then
    r <- randrange 0 4294967295 ;; ret [r]
  else
    match seed with
    | SeedInt z => ret [z]
    | SeedSeq l => ret l
    | SeedNone => raise (TypeError "'NoneType' object is not iterable")
    end.

(** [generation.Prompt(text=p)] *)
Definition text_prompt (p : string) : generation.Prompt :=
  generation.mkPrompt (generation.PromptText p) None.

(** The loop over [prompt], after a lone string or [Prompt] was wrapped in a
    list; iterating [None] raises. *)
Definition normalize_prompt (prompt : PromptArg) : M (list generation.Prompt) :=
  match prompt with
  | ArgNone => raise (TypeError "'NoneType' object is not iterable")
  | ArgStr _ | ArgPrompt _ | ArgList _ =>
      let prompt := match prompt with
                    | ArgStr s => [ElemStr s]
                    | ArgPrompt p => [ElemPrompt p]
                    | ArgList l => l
                    | ArgNone => []
                    end in
      for_each prompt
        (fun prompts p =>
           match p with
           | ElemStr s => ret (prompts ++ [text_prompt s])%list
           | ElemPrompt p => ret (prompts ++ [p])%list
           | ElemOther =>
               raise (TypeError "prompt must be a string or generation.Prompt object")
           end)
        []
  end.

(** The negative prompt: the text with weight [-1]. *)
Definition negative_prompts (negative_prompt : option string) : list generation.Prompt :=
  if truthy negative_prompt then
    [generation.mkPrompt (generation.PromptText (default "" negative_prompt))
       (Some (generation.mkPromptParameters None (Some (-1)%float)))]
  else [].

(** ** [generate]: the sampler settings *)

(** [if x: d[key] = x] *)
Definition set_if_truthy {A} `{Truthy A} (key : string) (inj : A -> kwarg)
           (x : option A) (d : gmap string kwarg) : gmap string kwarg :=
  match x with
  | Some v => if truthy v then <[key := inj v]> d else d
  | None => d
  end.

Definition churn_parameters (churn : float) (a : GenerateArgs) : gmap string kwarg :=
  let churn_parameters : gmap string kwarg := {[ "churn" := KFloat churn ]} in
  let churn_parameters := set_if_truthy "churn_tmin" KFloat (arg_churn_tmin a) churn_parameters in
  let churn_parameters := set_if_truthy "churn_tmax" KFloat (arg_churn_tmax a) churn_parameters in
  churn_parameters.

Definition sigma_parameters (a : GenerateArgs) : gmap string kwarg :=
  let sigma_parameters : gmap string kwarg := ∅ in
  let sigma_parameters := set_if_truthy "sigma_min" KFloat (arg_sigma_min a) sigma_parameters in
  let sigma_parameters := set_if_truthy "sigma_max" KFloat (arg_sigma_max a) sigma_parameters in
  let sigma_parameters := set_if_truthy "karras_rho" KFloat (arg_karras_rho a) sigma_parameters in
  sigma_parameters.

Definition sampler_parameters (a : GenerateArgs) : gmap string kwarg :=
  let sampler_parameters : gmap string kwarg :=
    {[ "cfg_scale" := KFloat (arg_cfg_scale a) ]} in
  let sampler_parameters := set_if_truthy "eta" KFloat (arg_eta a) sampler_parameters in
  let sampler_parameters :=
    set_if_truthy "noise_type" KInt (arg_noise_type a) sampler_parameters in
  let sampler_parameters :=
    match arg_churn a with
    | Some churn =>
        if truthy churn then
          <["churn" := KChurn (ChurnSettings_kw (churn_parameters churn a))]>
            sampler_parameters
        else sampler_parameters
    | None => sampler_parameters
    end in
  <["sigma" := KSigma (SigmaParameters_kw (sigma_parameters a))]> sampler_parameters.

(** [dict(scaled_step=0, sampler=...)], then the schedule when there is an
    init image. *)
Definition step_parameters_base (a : GenerateArgs) : gmap string kwarg :=
  let step_parameters : gmap string kwarg :=
    <["sampler" := KSampler (SamplerParameters_kw (sampler_parameters a))]>
      {[ "scaled_step" := KFloat 0%float ]} in
  if negb (is_None (arg_init_image a)) then
    <["schedule" := KSchedule (generation.mkScheduleParameters
                                 (Some (arg_start_schedule a))
                                 (Some (arg_end_schedule a)))]> step_parameters
  else step_parameters.

(** ** [generate]: the image, mask, depth and LoRA prompts *)

(** Modelled from the spec: [p.artifact] of a prompt whose one-of holds no
    artifact is the default (empty) artifact. *)
Definition default_artifact : generation.Artifact :=
  generation.mkArtifact (generation.ARTIFACT_OTHER 0) "" "" generation.NoData []
                        generation.FINISH_NULL.

Definition prompt_artifact (p : generation.Prompt) : generation.Artifact :=
  match generation.content p with
  | generation.PromptArtifact a => a
  | _ => default_artifact
  end.

(** [p.artifact.adjustments.append(adjustment)] *)
Definition append_adjustment (p : generation.Prompt) (adjustment : generation.ImageAdjustment)
  : generation.Prompt :=
  let a := prompt_artifact p in
  generation.mkPrompt
    (generation.PromptArtifact
       (generation.mkArtifact (generation.type a) (generation.uuid a) (generation.mime a)
          (generation.data a) (generation.adjustments a ++ [adjustment])%list
          (generation.finish_reason a)))
    (generation.parameters p).

(** The body of [if init_image is not None:] after the schedule: the prompts
    appended for the init image, the mask and the depth map. *)
Definition image_prompts (a : GenerateArgs) (init_image : Image)
  : M (list generation.Prompt) :=
  init_image_prompt <- image_to_prompt init_image true false false false ;;
  let prompts := [init_image_prompt] in
  prompts <-
    match arg_mask_image a with
    | Some mask_image =>
        p <- image_to_prompt mask_image false true false false ;;
        ret (prompts ++ [p])%list
    | None =>
        if arg_mask_from_image_alpha a then
          let mask_prompt :=
            ref_to_prompt (generation.uuid (prompt_artifact init_image_prompt))
                          true false in
          let mask_prompt :=
            append_adjustment mask_prompt
              (generation.Adjust_channels generation.CHANNEL_A generation.CHANNEL_A
                                          generation.CHANNEL_A generation.CHANNEL_DISCARD) in
          let mask_prompt := append_adjustment mask_prompt generation.Adjust_invert in
          ret (prompts ++ [mask_prompt])%list
        else ret prompts
    end ;;
  prompts <-
    match arg_depth_image a with
    | Some depth_image =>
        p <- image_to_prompt depth_image false false true false ;;
        ret (prompts ++ [p])%list
    | None => ret prompts
    end ;;
  if arg_depth_from_image a then
    let depth_prompt :=
      ref_to_prompt (generation.uuid (prompt_artifact init_image_prompt)) false true in
    let depth_prompt := append_adjustment depth_prompt generation.Adjust_depth in
    ret (prompts ++ [depth_prompt])%list
  else ret prompts.

(** [if lora: for path, weights in lora: prompts += [lora_to_prompt(path, weights)]] *)
Definition lora_prompts (lora : option (list (string * loc)))
           (prompts : list generation.Prompt) : M (list generation.Prompt) :=
  if truthy lora then
    for_each (default [] lora)
      (fun prompts entry =>
         p <- lora_to_prompt (fst entry) (snd entry) ;;
         ret (prompts ++ [p])%list)
      prompts
  else ret prompts.

(** ** [generate]: guidance and hi-res fix *)

Definition normalize_guidance_prompt (guidance_prompt : GuidancePromptArg)
  : M GuidancePromptArg :=
  if truthy guidance_prompt then
    match guidance_prompt with
    | GuidanceStr s => ret (GuidancePrompt (text_prompt s))
    | GuidancePrompt _ => ret guidance_prompt
    | _ => raise (ValueError "guidance_prompt must be a string or Prompt object")
    end
  else ret guidance_prompt.

(** The [prompt=] keyword of [GuidanceInstanceParameters]: [None] leaves the
    field unset, a [Prompt] sets it, anything else (a false value that the
    normalization let through) is refused by the message constructor. *)
Definition guidance_prompt_field (guidance_prompt : GuidancePromptArg)
  : M (option generation.Prompt) :=
  match guidance_prompt with
  | GuidanceNone => ret None
  | GuidancePrompt p => ret (Some p)
  | _ => raise (TypeError "Parameter to MergeFrom() must be instance of same class")
  end.

(** The guidance block, built when the preset is not the default one or a
    strength is given.  The preset is compared by identity, which on these
    enum integers is equality. *)
Definition guidance_parameters (a : GenerateArgs) (guidance_prompt : GuidancePromptArg)
  : M (option generation.GuidanceParameters) :=
  if negb (arg_guidance_preset a =? generation.GUIDANCE_PRESET_NONE)
     || negb (is_None (arg_guidance_strength a)) then
    let guiders :=
      if truthy (arg_guidance_models a) then
        map generation.mkModel (default [] (arg_guidance_models a))
      else [] in
    let cutouts :=
      if truthy (arg_guidance_cuts a) then
        Some (generation.mkCutoutParameters (arg_guidance_cuts a))
      else None in
    prompt <- guidance_prompt_field guidance_prompt ;;
    ret (Some (generation.mkGuidanceParameters (arg_guidance_preset a)
                 [generation.mkGuidanceInstanceParameters
                    (arg_guidance_strength a) guiders cutouts prompt]))
  else ret None.

Definition hires_parameters (a : GenerateArgs) : option generation.HiresFixParameters :=
  let hires_fix :=
    if is_None (arg_hires_fix a) && negb (is_None (arg_hires_oos_fraction a))
    then Some true else arg_hires_fix a in
  match hires_fix with
  | Some hires_fix =>
      let hires_params : gmap string kwarg := {[ "enable" := KBool hires_fix ]} in
      let hires_params :=
        match arg_hires_oos_fraction a with
        | Some f => <["oos_fraction" := KFloat f]> hires_params
        | None => hires_params
        end in
      Some (HiresFixParameters_kw hires_params)
  | None => None
  end.

(** ** [generate] *)

(** The two precondition checks come first; the request parts are then
    assembled in the order of the source, and the call ends by creating the
    generator of the chosen submitter, whose body has not started.  The
    checks the protobuf constructors make on their fields (a seed outside
    the 32-bit range is refused there) are not modelled, so the model may
    return where the source raises; the properties of the request below are
    stated of calls that return. *)
Definition generate (self : StabilityInference) (a : GenerateArgs) : M Generator :=
  if prompt_is_None (arg_prompt a) && is_None (arg_init_image a) then
    raise (ValueError "prompt and/or init_image must be provided")
  else if negb (is_None (arg_mask_image a)) && is_None (arg_init_image a) then
    raise (ValueError "If mask_image is provided, init_image must also be provided")
  else
    seed <- normalize_seed (arg_seed a) ;;
    prompts <- normalize_prompt (arg_prompt a) ;;
    let prompts := (prompts ++ negative_prompts (arg_negative_prompt a))%list in
    let step_parameters := step_parameters_base a in
    prompts <- match arg_init_image a with
               | Some init_image =>
                   ps <- image_prompts a init_image ;; ret (prompts ++ ps)%list
               | None => ret prompts
               end ;;
    prompts <- lora_prompts (arg_lora a) prompts ;;
    guidance_prompt <- normalize_guidance_prompt (arg_guidance_prompt a) ;;
    guidance <- guidance_parameters a guidance_prompt ;;
    let step_parameters :=
      match guidance with
      | Some g => <["guidance" := KGuidance g]> step_parameters
      | None => step_parameters
      end in
    let hires := hires_parameters a in
    let image_parameters :=
      generation.mkImageParameters
        (generation.Transform_diffusion (arg_sampler a))
        (arg_height a) (arg_width a) seed (arg_steps a) (arg_samples a)
        [StepParameter_kw step_parameters] hires (arg_tiling a) in
    ret (if arg_as_async a
         then emit_async_request_suspended prompts image_parameters
         else emit_request_suspended prompts image_parameters).

(** The defaults of the signature of [generate], around a prompt.  The
    default sampler is the enum member [SAMPLER_K_LMS], whose number the
    generated module fixes. *)
Definition default_args (SAMPLER_K_LMS : Z) (prompt : PromptArg) : GenerateArgs :=
  {| arg_prompt := prompt;
     arg_negative_prompt := None;
     arg_init_image := None;
     arg_mask_image := None;
     arg_mask_from_image_alpha := false;
     arg_depth_image := None;
     arg_depth_from_image := false;
     arg_height := 512;
     arg_width := 512;
     arg_start_schedule := 1%float;
     arg_end_schedule := 0.01%float;
     arg_cfg_scale := 7%float;
     arg_eta := Some 0%float;
     arg_churn := None;
     arg_churn_tmin := None;
     arg_churn_tmax := None;
     arg_sigma_min := None;
     arg_sigma_max := None;
     arg_karras_rho := None;
     arg_noise_type := None;
     arg_sampler := SAMPLER_K_LMS;
     arg_steps := 50;
     arg_seed := SeedInt 0;
     arg_samples := 1;
     arg_guidance_preset := generation.GUIDANCE_PRESET_NONE;
     arg_guidance_cuts := 0;
     arg_guidance_strength := None;
     arg_guidance_prompt := GuidanceNone;
     arg_guidance_models := None;
     arg_hires_fix := None;
     arg_hires_oos_fraction := None;
     arg_tiling := false;
     arg_lora := None;
     arg_as_async := false |}.

(** The step block and the sampler block of the request a generator will
    send. *)
Definition generator_step (g : Generator) : option generation.StepParameter :=
  head (generation.step_parameters (generator_image_parameters g)).

End Client.

(** ** Sample worlds and libraries, for running the model *)

Module Sample.

(** Images are stood for by their PNG bytes; the file system holds one LoRA
    file. *)
Definition libraries : Libraries :=
  {| Image := bytes;
     save_png := fun im => im;
     alpha_mask := fun im => Some im;
     safe_open := fun path => if String.eqb path "a.safetensors" then Some [] else None;
     serialize_safetensor := fun f => f;
     guess_extension := fun m => if String.eqb m "image/png" then Some ".png" else None;
     classifier_to_json := fun _ => [];
     artifact_to_json := fun _ => [];
     SerializeToString := fun _ => [] |}.

Definition world : World :=
  {| entropy := fun n => Z.of_nat n;
     rand_calls := 0;
     uuid_source := fun n => "uuid-" ++ str_of_nat n;
     uuid_calls := 0;
     heap := {[ 1%positive := [0.75%float; 0.25%float; 0.5%float] ]};
     disk := ∅;
     rpc_log := [];
     stdout := [];
     slept := 0 |}.

Definition client : StabilityInference := mkStabilityInference false "stable-diffusion-v1-5".

(** A call of [generate] that leaves every keyword but the listed ones at
    its default. *)
Definition args (prompt : PromptArg)
           (init_image mask_image depth_image : option bytes)
           (mask_from_image_alpha depth_from_image : bool)
           (guidance_strength : option float)
           (lora : option (list (string * loc))) : @GenerateArgs libraries :=
  let d := @default_args libraries 7 prompt in
  @mkGenerateArgs libraries
    prompt (arg_negative_prompt d) init_image mask_image mask_from_image_alpha
    depth_image depth_from_image (arg_height d) (arg_width d)
    (arg_start_schedule d) (arg_end_schedule d) (arg_cfg_scale d) (arg_eta d)
    (arg_churn d) (arg_churn_tmin d) (arg_churn_tmax d)
    (arg_sigma_min d) (arg_sigma_max d) (arg_karras_rho d) (arg_noise_type d)
    (arg_sampler d) (arg_steps d) (SeedInt 42) (arg_samples d)
    (arg_guidance_preset d) (arg_guidance_cuts d) guidance_strength
    (arg_guidance_prompt d) (arg_guidance_models d)
    (arg_hires_fix d) (arg_hires_oos_fraction d) (arg_tiling d) lora
    (arg_as_async d).

(** A plain text-to-image call; a call with an init image, its alpha channel
    as mask, depth inferred from it and one LoRA; calls that ask for depth
    without an init image. *)
Definition plain_args : @GenerateArgs libraries :=
  args (ArgStr "a cat") None None None false false None None.

Definition alpha_mask_args : @GenerateArgs libraries :=
  args (ArgStr "a cat") (Some []) None None true true None
       (Some [("a.safetensors", 1%positive)]).

Definition depth_image_only_args : @GenerateArgs libraries :=
  args (ArgStr "a cat") None None (Some []) false false None None.

Definition depth_from_image_only_args : @GenerateArgs libraries :=
  args (ArgStr "a cat") None None None false true None None.

(** A call with an init image, a mask image and a depth image of its own,
    and depth inferred from the init image as well. *)
Definition three_images_args : @GenerateArgs libraries :=
  args (ArgStr "a cat") (Some [Byte.x01]) (Some [Byte.x02]) (Some [Byte.x03])
       false true None None.

(** A call that gives [churn_tmin] and no [churn]. *)
Definition churn_tmin_only_args : @GenerateArgs libraries :=
  let d := plain_args in
  @mkGenerateArgs libraries
    (arg_prompt d) (arg_negative_prompt d) (arg_init_image d) (arg_mask_image d)
    (arg_mask_from_image_alpha d) (arg_depth_image d) (arg_depth_from_image d)
    (arg_height d) (arg_width d) (arg_start_schedule d) (arg_end_schedule d)
    (arg_cfg_scale d) (arg_eta d) None (Some 0.5%float) None
    (arg_sigma_min d) (arg_sigma_max d) (arg_karras_rho d) (arg_noise_type d)
    (arg_sampler d) (arg_steps d) (arg_seed d) (arg_samples d)
    (arg_guidance_preset d) (arg_guidance_cuts d) (arg_guidance_strength d)
    (arg_guidance_prompt d) (arg_guidance_models d)
    (arg_hires_fix d) (arg_hires_oos_fraction d) (arg_tiling d) (arg_lora d)
    (arg_as_async d).

(** Three answers with one image each, and the poll responses that carry
    them: not complete, not complete, complete. *)
Definition image (n : nat) : generation.Artifact :=
  generation.mkArtifact generation.ARTIFACT_IMAGE "" "image/png"
                        (generation.Binary []) [] generation.FINISH_NULL.

Definition answer (n : nat) : generation.Answer :=
  generation.mkAnswer (str_of_nat n) "rq" [image n].

Definition handle : generation.AsyncHandle := generation.mkAsyncHandle "h".

Definition polls : list generation.AsyncAnswer :=
  [generation.mkAsyncAnswer [answer 1] false;
   generation.mkAsyncAnswer [answer 2] false;
   generation.mkAsyncAnswer [answer 3] true].

End Sample.

(** The artifacts of a sequence of answers in encounter order, each with the
    answer that owns it, and their numbering from a starting index. *)
Definition encounter_order (answers : list generation.Answer)
  : list (generation.Answer * generation.Artifact) :=
  flat_map (fun resp => map (pair resp) (generation.artifacts resp)) answers.

Fixpoint number_from `{Libraries} (prefix : string) (idx : nat)
         (items : list (generation.Answer * generation.Artifact))
  : list (string * generation.Artifact) :=
  match items with
  | [] => []
  | (resp, artifact) :: items' =>
      (out_p prefix resp idx artifact, artifact) :: number_from prefix (S idx) items'
  end.

(** The prompt [lora_to_prompt] returns for a payload and the weights taken
    off the caller's list: the first is named for the primary model, the
    second for the text encoder. *)
Definition lora_prompt (payload : bytes) (taken : list float) : generation.Prompt :=
  generation.mkPrompt
    (generation.PromptArtifact
       (generation.mkArtifact generation.ARTIFACT_LORA "" ""
          (generation.LoraData
             (generation.mkLora payload
                (zip_with generation.mkLoraWeight ["unet"; "text_encoder"] taken)))
          [] generation.FINISH_NULL))
    None.

(** The prompts [generate] builds around images: an inline image under a
    fresh UUID, and a reference to another prompt's artifact with its
    adjustments. *)
Definition image_prompt (type : generation.ArtifactType) (uuid : string) (png : bytes)
           (init : bool) : generation.Prompt :=
  generation.mkPrompt
    (generation.PromptArtifact
       (generation.mkArtifact type uuid "" (generation.Binary png) []
                              generation.FINISH_NULL))
    (Some (generation.mkPromptParameters (Some init) None)).

Definition reference_prompt (type : generation.ArtifactType) (ref_uuid : string)
           (adjustments : list generation.ImageAdjustment) : generation.Prompt :=
  generation.mkPrompt
    (generation.PromptArtifact
       (generation.mkArtifact type "" ""
          (generation.Ref
             (generation.mkArtifactReference ref_uuid
                                             generation.ARTIFACT_AFTER_ADJUSTMENTS))
          adjustments generation.FINISH_NULL))
    None.

(** The artifact type of a prompt. *)
Definition prompt_type (p : generation.Prompt) : generation.ArtifactType :=
  generation.type (prompt_artifact p).


(** The mask and depth prompts that follow the init image prompt of UUID
    [u0]; [um] and [ud] are the UUIDs minted for an inline mask and an inline
    depth map. *)
Definition mask_prompts `{Libraries} (a : GenerateArgs) (u0 um : string)
  : list generation.Prompt :=
  match arg_mask_image a with
  | Some mask_image => [image_prompt generation.ARTIFACT_MASK um (save_png mask_image) false]
  | None =>
      if arg_mask_from_image_alpha a then
        [reference_prompt generation.ARTIFACT_MASK u0
           [generation.Adjust_channels generation.CHANNEL_A generation.CHANNEL_A
                                       generation.CHANNEL_A generation.CHANNEL_DISCARD;
            generation.Adjust_invert]]
      else []
  end.

Definition depth_prompts `{Libraries} (a : GenerateArgs) (u0 ud : string)
  : list generation.Prompt :=
  (match arg_depth_image a with
   | Some depth_image =>
       [image_prompt generation.ARTIFACT_DEPTH ud (save_png depth_image) false]
   | None => []
   end
   ++ if arg_depth_from_image a then
        [reference_prompt generation.ARTIFACT_DEPTH u0 [generation.Adjust_depth]]
      else [])%list.

(** The value of an optional setting that is given and true: what the
    [if x:] tests of the assembler let through. *)
Definition supplied {A} `{Truthy A} (x : option A) : option A :=
  if truthy x then x else None.

Definition key_if_supplied {A} `{Truthy A} (key : string) (x : option A) : gset string :=
  match supplied x with Some _ => {[ key ]} | None => ∅ end.

(** ** Names of samplers and noise types *)

(** Modelled from the spec: the members of the enums [DiffusionSampler] and
    [SamplerNoiseType] of the generated module that the tables below name. *)
Inductive DiffusionSampler :=
| SAMPLER_DDIM | SAMPLER_DDPM | SAMPLER_K_EULER | SAMPLER_K_EULER_ANCESTRAL
| SAMPLER_K_HEUN | SAMPLER_K_DPM_2 | SAMPLER_K_DPM_2_ANCESTRAL | SAMPLER_K_LMS
| SAMPLER_DPM_FAST | SAMPLER_DPM_ADAPTIVE | SAMPLER_DPMSOLVERPP_1ORDER
| SAMPLER_DPMSOLVERPP_2ORDER | SAMPLER_DPMSOLVERPP_3ORDER
| SAMPLER_DPMSOLVERPP_2S_ANCESTRAL | SAMPLER_DPMSOLVERPP_SDE | SAMPLER_DPMSOLVERPP_2M.

Inductive SamplerNoiseType := SAMPLER_NOISE_NORMAL | SAMPLER_NOISE_BROWNIAN.

Definition SAMPLERS : gmap string DiffusionSampler :=
  list_to_map
    [("ddim", SAMPLER_DDIM);
     ("plms", SAMPLER_DDPM);
     ("k_euler", SAMPLER_K_EULER);
     ("k_euler_ancestral", SAMPLER_K_EULER_ANCESTRAL);
     ("k_heun", SAMPLER_K_HEUN);
     ("k_dpm_2", SAMPLER_K_DPM_2);
     ("k_dpm_2_ancestral", SAMPLER_K_DPM_2_ANCESTRAL);
     ("k_lms", SAMPLER_K_LMS);
     ("dpm_fast", SAMPLER_DPM_FAST);
     ("dpm_adaptive", SAMPLER_DPM_ADAPTIVE);
     ("dpmspp_1", SAMPLER_DPMSOLVERPP_1ORDER);
     ("dpmspp_2", SAMPLER_DPMSOLVERPP_2ORDER);
     ("dpmspp_3", SAMPLER_DPMSOLVERPP_3ORDER);
     ("dpmspp_2s_ancestral", SAMPLER_DPMSOLVERPP_2S_ANCESTRAL);
     ("dpmspp_sde", SAMPLER_DPMSOLVERPP_SDE);
     ("dpmspp_2m", SAMPLER_DPMSOLVERPP_2M)].

Definition NOISE_TYPES : gmap string SamplerNoiseType :=
  list_to_map
    [("normal", SAMPLER_NOISE_NORMAL);
     ("brownian", SAMPLER_NOISE_BROWNIAN)].

(** Strings here are texts whose characters have code points below 256.
    [str.isspace] on such a character: the ASCII blanks, the four separator
    controls, next-line and the no-break space. *)
Definition is_space (c : Ascii.ascii) : bool :=
  let n := Ascii.nat_of_ascii c in
  ((9 <=? n) && (n <=? 13) || (28 <=? n) && (n <=? 32)
   || (n =? 133) || (n =? 160))%nat.

(** [str.lower] on one such character: the ASCII capitals and the accented
    capitals of the upper half move 32 places up, every other character
    stays. *)
Definition lower_char (c : Ascii.ascii) : Ascii.ascii :=
  let n := Ascii.nat_of_ascii c in
  if ((65 <=? n) && (n <=? 90) || (192 <=? n) && (n <=? 214)
      || (216 <=? n) && (n <=? 222))%nat
  then Ascii.ascii_of_nat (n + 32) else c.

Fixpoint lower (s : string) : string :=
  match s with
  | EmptyString => EmptyString
  | String c s' => String (lower_char c) (lower s')
  end.

Fixpoint lstrip (s : string) : string :=
  match s with
  | EmptyString => EmptyString
  | String c s' => if is_space c then lstrip s' else s
  end.

Fixpoint rstrip (s : string) : string :=
  match s with
  | EmptyString => EmptyString
  | String c s' =>
      match rstrip s' with
      | EmptyString => if is_space c then EmptyString else String c EmptyString
      | r => String c r
      end
  end.

(** [s.strip()] *)
Definition strip (s : string) : string := rstrip (lstrip s).

Fixpoint all_space (s : string) : bool :=
  match s with
  | EmptyString => true
  | String c s' => is_space c && all_space s'
  end.

Definition get_sampler_from_str (s : string) : result DiffusionSampler :=
  let algorithm_key := strip (lower s) in
  let algorithm := SAMPLERS !! algorithm_key in
  match algorithm with
  | None => Raise (ValueError ("unknown sampler " ++ s))
  | Some algorithm => Ok algorithm
  end.

Definition get_noise_type_from_str (s : string) : result SamplerNoiseType :=
  let noise_key := strip (lower s) in
  let noise_type := NOISE_TYPES !! noise_key in
  match noise_type with
  | None => Raise (ValueError ("unknown noise type " ++ s))
  | Some noise_type => Ok noise_type
  end.

(** What a call returned, if it returned. *)
Definition returned {A} (r : result A) : option A :=
  match r with Ok a => Some a | Raise _ => None end.

(** ** Synchronous submission *)



(** ** Showing images *)

(** How a run of [open_images] went: the pairs it yielded, the images it
    showed, and the path at which [Image.open] refused the data, if it did
    (the generator then ends with that exception, before yielding the
    pair). *)
Record OpenImagesRun `{Libraries} := mkOpenImagesRun {
  opened_yielded : list (string * generation.Artifact);
  opened_shown : list Image;
  opened_failed : option string
}.
Arguments mkOpenImagesRun {_} _ _ _.
Arguments opened_yielded {_} _.
Arguments opened_shown {_} _.
Arguments opened_failed {_} _.

Section OpenImages.
Context `{Libraries}.
(** [Image.open(io.BytesIO(data))]: [None] when the data is no image. *)
Variable Image_open : bytes -> option Image.

Fixpoint open_images (images : list (string * generation.Artifact)) : OpenImagesRun :=
  match images with
  | [] => mkOpenImagesRun [] [] None
  | (path, artifact) :: images' =>
      match generation.type artifact with
      | generation.ARTIFACT_IMAGE =>
          match Image_open (generation.binary artifact) with
          | Some img =>
              let run := open_images images' in
              mkOpenImagesRun ((path, artifact) :: opened_yielded run)
                              (img :: opened_shown run) (opened_failed run)
          | None => mkOpenImagesRun [] [] (Some path)
          end
      | _ =>
          let run := open_images images' in
          mkOpenImagesRun ((path, artifact) :: opened_yielded run)
                          (opened_shown run) (opened_failed run)
      end
  end.

(** The images among the artifacts of a list of pairs, decoded. *)
Definition is_image (artifact : generation.Artifact) : bool :=
  match generation.type artifact with
  | generation.ARTIFACT_IMAGE => true
  | _ => false
  end.

Definition decoded_images (images : list (string * generation.Artifact))
  : list (option Image) :=
  map (fun item => Image_open (generation.binary item.2))
      (List.filter (fun item => is_image item.2) images).

End OpenImages.

(** ** What [generate] leaves alone *)

(** The world moved on only in the counters of the random generator and the
    UUID source and in the list objects: nothing was sent, written, printed
    or slept. *)
Definition only_local_effects (w w' : World) : Prop :=
  entropy w' = entropy w /\
  uuid_source w' = uuid_source w /\
  disk w' = disk w /\
  rpc_log w' = rpc_log w /\
  stdout w' = stdout w /\
  slept w' = slept w /\
  (rand_calls w <= rand_calls w')%nat /\
  (uuid_calls w <= uuid_calls w')%nat.

Definition local {A} (c : M A) : Prop := forall w, only_local_effects w (c w).2.

(** The call with the settings that only matter beside an init image put
    back to their defaults. *)
Definition without_image_options `{Libraries} (a : GenerateArgs) : GenerateArgs :=
  mkGenerateArgs
    (arg_prompt a) (arg_negative_prompt a) (arg_init_image a) (arg_mask_image a)
    false None false
    (arg_height a) (arg_width a) 1%float 0.01%float
    (arg_cfg_scale a) (arg_eta a) (arg_churn a) (arg_churn_tmin a) (arg_churn_tmax a)
    (arg_sigma_min a) (arg_sigma_max a) (arg_karras_rho a) (arg_noise_type a)
    (arg_sampler a) (arg_steps a) (arg_seed a) (arg_samples a)
    (arg_guidance_preset a) (arg_guidance_cuts a) (arg_guidance_strength a)
    (arg_guidance_prompt a) (arg_guidance_models a)
    (arg_hires_fix a) (arg_hires_oos_fraction a) (arg_tiling a) (arg_lora a)
    (arg_as_async a).

(** The prompt an element of a prompt list stands for, if it is a string or
    a [Prompt]. *)
Definition elem_prompt (e : PromptElem) : option generation.Prompt :=
  match e with
  | ElemStr s => Some (text_prompt s)
  | ElemPrompt p => Some p
  | ElemOther => None
  end.

(** The UUID an inline artifact prompt carries, and the UUID a reference
    prompt points to. *)
Definition inline_uuid (p : generation.Prompt) : option string :=
  match generation.data (prompt_artifact p) with
  | generation.Binary _ => Some (generation.uuid (prompt_artifact p))
  | _ => None
  end.

Definition referenced_uuid (p : generation.Prompt) : option string :=
  match generation.data (prompt_artifact p) with
  | generation.Ref r => Some (generation.ref_uuid r)
  | _ => None
  end.

(** ** Files written by the demultiplexer *)

Definition with_disk (w : World) (d : gmap string bytes) : World :=
  mkWorld (entropy w) (rand_calls w) (uuid_source w) (uuid_calls w)
          (heap w) d (rpc_log w) (stdout w) (slept w).

(** Writing files one after the other; a later file replaces an earlier one
    of the same name. *)
Definition write_all (files : list (string * bytes)) (d : gmap string bytes)
  : gmap string bytes :=
  foldl (fun d file => <[file.1 := file.2]> d) d files.

(** The files that go with yielded pairs: the name, and the contents the
    artifact type decides. *)
Definition files_of `{Libraries} (out : list (string * generation.Artifact))
  : list (string * bytes) :=
  map (fun item => (item.1, (ext_and_contents item.2).2)) out.

(** ** Accounting of the submitters *)



(** ** LoRA entries with lists of their own *)

(** The prompt of a LoRA entry whose weights list is read in a given world:
    the payload of its file and the first two weights of its list. *)
Definition own_lora_prompt `{Libraries} (w : World) (entry : string * loc)
  : generation.Prompt :=
  lora_prompt (serialize_safetensor (default [] (safe_open entry.1)))
              (take 2 (heap w !!! entry.2)).

(** ** The LoRA specifications of the command line *)

(** The colon character. *)
Definition colon : Ascii.ascii := Ascii.ascii_of_nat 58.

(** [s.split(":")]: the pieces between the colons, at least one. *)
Fixpoint split_colon (s : string) : list string :=
  match s with
  | EmptyString => [EmptyString]
  | String c s' =>
      if Ascii.eqb c colon then EmptyString :: split_colon s'
      else
        match split_colon s' with
        | piece :: pieces => String c piece :: pieces
        | [] => [String c EmptyString]
        end
  end.

(** A fresh list object holding [ws]. *)
Definition new_list (ws : list float) : M loc :=
  fun w =>
    let l := fresh (dom (heap w)) in
    (Ok l,
     mkWorld (entropy w) (rand_calls w) (uuid_source w) (uuid_calls w)
             (<[l := ws]> (heap w)) (disk w) (rpc_log w) (stdout w) (slept w)).

Section CommandLine.
(** [float(text)]: [None] when the text is no number ([ValueError]). *)
Variable float_of_str : string -> option float.

(** [path, *weights = spec.split(":")] and
    [weights = [float(weight) for weight in weights]]. *)
Definition parse_lora_spec (spec : string) : result (string * list float) :=
  match split_colon spec with
  | path :: weights =>
      match mapM float_of_str weights with
      | Some weights => Ok (path, weights)
      | None => Raise (ValueError "could not convert string to float")
      end
  | [] => Raise (ValueError "not enough values to unpack")
  end.

(** The loop of the command line over [args.lora]: every specification gets
    a list object of its own. *)
Definition cli_lora (args_lora : option (list string)) : M (list (string * loc)) :=
  if truthy args_lora then
    for_each (default [] args_lora)
      (fun lora spec =>
         match parse_lora_spec spec with
         | Ok (path, weights) =>
             weights <- new_list weights ;;
             ret (lora ++ [(path, weights)])%list
         | Raise e => raise e
         end)
      []
  else ret [].

End CommandLine.

(** The prompt of a parsed LoRA specification: the payload of the file at
    its path and its first two weights. *)
Definition parsed_lora_prompt `{Libraries} (parsed : string * list float)
  : generation.Prompt :=
  lora_prompt (serialize_safetensor (default [] (safe_open parsed.1)))
              (take 2 parsed.2).

(** [":".join(pieces)] *)
Definition join_colon (pieces : list string) : string := String.concat ":" pieces.

(** Whether a colon occurs in a string. *)
Fixpoint has_colon (s : string) : bool :=
  match s with
  | EmptyString => false
  | String c s' => Ascii.eqb c colon || has_colon s'
  end.

(** A reader of the decimal texts used in the examples. *)
Definition sample_float_of_str (text : string) : option float :=
  if String.eqb text "0.75" then Some 0.75%float
  else if String.eqb text "0.25" then Some 0.25%float
  else if String.eqb text "0.5" then Some 0.5%float
  else None.

(** * Properties *)

(** ** The monad *)

Lemma bind_Ok_inv {A B} (c : M A) (k : A -> M B) w b w' :
  bind c k w = (Ok b, w') ->
  exists a w1, c w = (Ok a, w1) /\ k a w1 = (Ok b, w').
Proof.
  unfold bind. destruct (c w) as [[a|e] w1]; intros Hk.
  - exists a, w1. split; [reflexivity | exact Hk].
  - discriminate Hk.
Qed.

Lemma bind_Ok {A B} (c : M A) (k : A -> M B) w a w1 :
  c w = (Ok a, w1) -> bind c k w = k a w1.
Proof. unfold bind. intros ->. reflexivity. Qed.

Lemma ret_inv {A} (a b : A) w w' : ret a w = (Ok b, w') -> a = b /\ w = w'.
Proof. unfold ret. intros [= -> ->]. split; reflexivity. Qed.

(** ** Seed normalization *)

Lemma randrange_range (stop : Z) (w : World) :
  0 < stop ->
  exists r, (randrange 0 stop w).1 = Ok r /\ 0 <= r < stop.
Proof.
  intros Hstop. eexists. split; [reflexivity |].
  rewrite Z.sub_0_r, Z.add_0_l. apply Z.mod_pos_bound. exact Hstop.
Qed.

(** C2, as amended.  A false seed ([None], [0] or an empty sequence) is
    replaced by a one-element list holding the draw of
    [randrange(0, 4294967295)], which lies in [0, 2^32-2] and takes each value
    of that range on exactly the draws congruent to it, so that a uniform draw
    gives a uniform seed; a non-zero integer is wrapped, unchanged, in a
    one-element list; a non-empty sequence is passed through, elements and
    order unchanged.  The last two cases draw nothing. *)
Theorem normalize_seed_spec (seed : SeedArg) (w : World) :
  let r := entropy w (rand_calls w) `mod` 4294967295 in
  (truthy seed = false ->
     (normalize_seed seed w).1 = Ok [r] /\ 0 <= r <= 2 ^ 32 - 2 /\
     rand_calls (normalize_seed seed w).2 = S (rand_calls w)) /\
  (forall v, truthy seed = false -> 0 <= v <= 2 ^ 32 - 2 ->
     ((normalize_seed seed w).1 = Ok [v] <->
      entropy w (rand_calls w) `mod` (2 ^ 32 - 1) = v)) /\
  (forall z, seed = SeedInt z -> z <> 0 -> normalize_seed seed w = (Ok [z], w)) /\
  (forall l, seed = SeedSeq l -> l <> [] -> normalize_seed seed w = (Ok l, w)).
Proof.
  intros r.
  assert (Hr : 0 <= r < 4294967295) by (apply Z.mod_pos_bound; lia).
  assert (Hfalse : truthy seed = false ->
                   normalize_seed seed w
                   = (Ok [r], mkWorld (entropy w) (S (rand_calls w)) (uuid_source w)
                                      (uuid_calls w) (heap w) (disk w) (rpc_log w)
                                      (stdout w) (slept w))).
  { intros Hs. unfold normalize_seed. rewrite Hs. cbn.
    subst r. rewrite Z.sub_0_r. reflexivity. }
  split; [| split; [| split]].
  - intros Hs. rewrite (Hfalse Hs). cbn. repeat split; lia.
  - intros v Hs Hv. rewrite (Hfalse Hs). cbn. subst r.
    change (2 ^ 32 - 1) with 4294967295.
    split; [intros [= E]; exact E | intros <-; reflexivity].
  - intros z -> Hz. unfold normalize_seed.
    replace (truthy (SeedInt z)) with true; [reflexivity |].
    symmetry. apply negb_true_iff, Z.eqb_neq. assumption.
  - intros l -> Hl. unfold normalize_seed. destruct l; [congruence | reflexivity].
Qed.

(** C2, as stated, fails: no draw makes the seed [2^32-1], the upper end of
    the claimed range, and an empty sequence is not passed through but
    replaced by a random seed. *)
Lemma normalize_seed_counterexample :
  ~ (exists w, (normalize_seed SeedNone w).1 = Ok [2 ^ 32 - 1]) /\
  (normalize_seed (SeedSeq []) Sample.world).1 = Ok [0].
Proof.
  split.
  - intros [w Hw]. cbn in Hw. injection Hw as Hw.
    pose proof (Z.mod_pos_bound (entropy w (rand_calls w)) (4294967295 - 0)).
    lia.
  - reflexivity.
Qed.

(** ** The asynchronous polling loop *)

(** Whatever the polls answer, the loop yields every answer of every response
    and is then found inside a further poll: it never returns. *)
Lemma async_loop_never_returns handle script yielded w :
  (async_loop handle script yielded w).1
  = Ok ((yielded ++ concat (map generation.answer script))%list, Polling).
Proof.
  revert yielded w. induction script as [| answers script IH]; intros yielded w.
  - cbn. rewrite app_nil_r. reflexivity.
  - cbn [async_loop]. unfold async_loop_body.
    unfold bind at 1. unfold bind at 1. cbn [rpc].
    destruct (generation.complete answers); cbn; rewrite IH, <- app_assoc;
      reflexivity.
Qed.

(** C1, on the code.  For the polls not complete, not complete, complete with
    one answer each, the three answers are yielded, but the loop does not end
    with the third: after the completing response it prints its message,
    sleeps a third time and issues a fourth poll. *)
Theorem async_loop_polls_after_completion :
  let run := async_loop Sample.handle Sample.polls [] Sample.world in
  run.1 = Ok ([Sample.answer 1; Sample.answer 2; Sample.answer 3], Polling) /\
  rpc_log run.2 = [AsyncResult Sample.handle; AsyncResult Sample.handle;
                   AsyncResult Sample.handle; AsyncResult Sample.handle] /\
  stdout run.2 = ["Done"] /\
  slept run.2 = 15.
Proof. cbv zeta. repeat split; reflexivity. Qed.

(** ** The precondition checks of [generate] *)

(** C7.  When the prompt and the init image are both absent, or a mask image
    comes without an init image, [generate] raises [ValueError] from the call
    itself and leaves the world as it found it: no random number drawn, no
    UUID minted (so no image prompt built), no list touched, no file written,
    no remote call made. *)
Theorem generate_rejects_missing_inputs `{Libraries}
        (self : StabilityInference) (a : GenerateArgs) (w : World) :
  (arg_prompt a = ArgNone /\ arg_init_image a = None) \/
  (arg_mask_image a <> None /\ arg_init_image a = None) ->
  exists msg, generate self a w = (Raise (ValueError msg), w).
Proof.
  intros [[Hp Hi] | [Hm Hi]]; unfold generate; rewrite Hi.
  - rewrite Hp. cbn. eexists. reflexivity.
  - destruct (arg_mask_image a) as [m |]; [| congruence].
    destruct (prompt_is_None (arg_prompt a)); cbn; eexists; reflexivity.
Qed.

Lemma generate_rejects_missing_inputs_witness :
  (exists msg,
      @generate Sample.libraries Sample.client
                (Sample.args ArgNone None None None false false None None) Sample.world
      = (Raise (ValueError msg), Sample.world)) /\
  (exists msg,
      @generate Sample.libraries Sample.client
                (Sample.args (ArgStr "a cat") None (Some []) None false false None None)
                Sample.world
      = (Raise (ValueError msg), Sample.world)).
Proof.
  split.
  - apply (@generate_rejects_missing_inputs Sample.libraries).
    left. split; reflexivity.
  - apply (@generate_rejects_missing_inputs Sample.libraries).
    right. split; [discriminate | reflexivity].
Defined.

(** ** The guidance prompt *)

(** C3, on the code.  With a guidance strength given and no guidance prompt,
    the guidance block is built and holds one instance, whose prompt field is
    left unset: it does not carry the main prompt of the request. *)
Theorem guidance_prompt_left_unset :
  let a := Sample.args (ArgStr "a cat") None None None false false (Some 0.25%float) None in
  exists g w',
    @generate Sample.libraries Sample.client a Sample.world = (Ok g, w') /\
    generator_prompt g = [text_prompt "a cat"] /\
    generator_step g ≫= generation.guidance
    = Some (generation.mkGuidanceParameters generation.GUIDANCE_PRESET_NONE
              [generation.mkGuidanceInstanceParameters (Some 0.25%float) [] None None]).
Proof. cbv zeta. do 2 eexists. repeat split; reflexivity. Qed.

(** ** The sampler block *)

Lemma if_truthy_supplied {A B} `{Truthy A} (x : option A) (f : A -> B) (d : B) :
  match x with Some v => if truthy v then f v else d | None => d end
  = match supplied x with Some v => f v | None => d end.
Proof.
  unfold supplied. destruct x as [v |]; [| reflexivity].
  change (truthy (Some v)) with (truthy v). destruct (truthy v); reflexivity.
Qed.

Lemma set_if_truthy_supplied {A} `{Truthy A} key (inj : A -> kwarg) (x : option A)
      (d : gmap string kwarg) :
  set_if_truthy key inj x d
  = match supplied x with Some v => <[key := inj v]> d | None => d end.
Proof. unfold set_if_truthy. apply if_truthy_supplied. Qed.

Lemma sigma_block `{Libraries} (a : GenerateArgs) :
  SigmaParameters_kw (sigma_parameters a)
  = generation.mkSigmaParameters (supplied (arg_sigma_min a)) (supplied (arg_sigma_max a))
                                 (supplied (arg_karras_rho a))
  /\ dom (sigma_parameters a)
     = key_if_supplied "sigma_min" (arg_sigma_min a)
       ∪ key_if_supplied "sigma_max" (arg_sigma_max a)
       ∪ key_if_supplied "karras_rho" (arg_karras_rho a).
Proof.
  unfold sigma_parameters, SigmaParameters_kw, key_if_supplied.
  rewrite !set_if_truthy_supplied.
  destruct (supplied (arg_sigma_min a)), (supplied (arg_sigma_max a)),
    (supplied (arg_karras_rho a)); (split; [reflexivity |]);
    rewrite ?dom_insert_L, ?dom_empty_L; set_solver.
Qed.

Lemma churn_block `{Libraries} (churn : float) (a : GenerateArgs) :
  ChurnSettings_kw (churn_parameters churn a)
  = generation.mkChurnSettings (Some churn) (supplied (arg_churn_tmin a))
                               (supplied (arg_churn_tmax a))
  /\ dom (churn_parameters churn a)
     = {[ "churn" ]} ∪ key_if_supplied "churn_tmin" (arg_churn_tmin a)
       ∪ key_if_supplied "churn_tmax" (arg_churn_tmax a).
Proof.
  unfold churn_parameters, ChurnSettings_kw, key_if_supplied.
  rewrite !set_if_truthy_supplied.
  destruct (supplied (arg_churn_tmin a)), (supplied (arg_churn_tmax a));
    (split; [reflexivity |]);
    rewrite ?dom_insert_L, ?dom_singleton_L; set_solver.
Qed.

(** The sampler message built from the dictionary. *)
Lemma sampler_message `{Libraries} (a : GenerateArgs) :
  SamplerParameters_kw (sampler_parameters a)
  = generation.mkSamplerParameters
      (supplied (arg_eta a))
      (Some (arg_cfg_scale a))
      (supplied (arg_noise_type a))
      (match supplied (arg_churn a) with
       | Some churn =>
           Some (generation.mkChurnSettings (Some churn)
                   (supplied (arg_churn_tmin a)) (supplied (arg_churn_tmax a)))
       | None => None
       end)
      (Some (generation.mkSigmaParameters
               (supplied (arg_sigma_min a)) (supplied (arg_sigma_max a))
               (supplied (arg_karras_rho a)))).
Proof.
  unfold sampler_parameters, SamplerParameters_kw.
  rewrite !set_if_truthy_supplied.
  rewrite (if_truthy_supplied (arg_churn a)).
  rewrite (proj1 (sigma_block a)).
  destruct (supplied (arg_eta a)), (supplied (arg_noise_type a)),
    (supplied (arg_churn a)) as [churn |];
    rewrite ?(proj1 (churn_block _ a)); reflexivity.
Qed.

(** C6, as amended.  The sampler dictionary holds [cfg_scale] and the [sigma]
    sub-block always, and [eta], [noise_type] and the [churn] sub-block
    exactly when the setting is supplied, that is given and true (not [None],
    not zero); the message built from it carries the supplied values and
    nothing else; the churn sub-block carries [churn] and, when supplied,
    [churn_tmin] and [churn_tmax]; the sigma sub-block carries the supplied
    ones among [sigma_min], [sigma_max] and [karras_rho], and is empty when
    none is. *)
Theorem sampler_block_fields `{Libraries} (a : GenerateArgs) :
  dom (sampler_parameters a)
  = {[ "cfg_scale"; "sigma" ]} ∪ key_if_supplied "eta" (arg_eta a)
    ∪ key_if_supplied "noise_type" (arg_noise_type a)
    ∪ key_if_supplied "churn" (arg_churn a)
  /\ SamplerParameters_kw (sampler_parameters a)
     = generation.mkSamplerParameters
         (supplied (arg_eta a))
         (Some (arg_cfg_scale a))
         (supplied (arg_noise_type a))
         (match supplied (arg_churn a) with
          | Some churn =>
              Some (generation.mkChurnSettings (Some churn)
                      (supplied (arg_churn_tmin a)) (supplied (arg_churn_tmax a)))
          | None => None
          end)
         (Some (generation.mkSigmaParameters
                  (supplied (arg_sigma_min a)) (supplied (arg_sigma_max a))
                  (supplied (arg_karras_rho a)))).
Proof.
  split; [| apply sampler_message].
  unfold sampler_parameters, key_if_supplied.
  rewrite !set_if_truthy_supplied.
  rewrite (if_truthy_supplied (arg_churn a)).
  destruct (supplied (arg_eta a)), (supplied (arg_noise_type a)),
    (supplied (arg_churn a)) as [churn |];
    rewrite ?dom_insert_L, ?dom_singleton_L; set_solver.
Qed.

(** C6, as stated, fails: with no optional sampler setting supplied the block
    is not [cfg_scale] alone, it also holds a [sigma] sub-block, empty. *)
Lemma sampler_block_counterexample :
  let a := Sample.args (ArgStr "a cat") None None None false false None None in
  dom (sampler_parameters a) = {[ "cfg_scale"; "sigma" ]} /\
  dom (sampler_parameters a) <> {[ "cfg_scale" ]} /\
  generation.sampler_sigma (SamplerParameters_kw (sampler_parameters a))
  = Some (generation.mkSigmaParameters None None None).
Proof.
  cbv zeta. split; [| split].
  - vm_compute. reflexivity.
  - intros E. assert (Hin : "sigma" ∈ dom (sampler_parameters
        (Sample.args (ArgStr "a cat") None None None false false None None))).
    { vm_compute. reflexivity. }
    rewrite E in Hin. apply elem_of_singleton in Hin. discriminate Hin.
  - reflexivity.
Qed.

(** ** The artifact demultiplexer *)

Lemma number_from_app `{Libraries} prefix idx items1 items2 :
  number_from prefix idx (items1 ++ items2)
  = (number_from prefix idx items1
     ++ number_from prefix (idx + length items1) items2)%list.
Proof.
  revert idx. induction items1 as [| [resp a] items1 IH]; intros idx; cbn.
  - rewrite Nat.add_0_r. reflexivity.
  - rewrite IH. replace (S idx + length items1)%nat with (idx + S (length items1))%nat by lia.
    reflexivity.
Qed.



Lemma write_all_cons p c (files : list (string * bytes)) (d : gmap string bytes) :
  write_all ((p, c) :: files) d = write_all files (<[p := c]> d).
Proof. reflexivity. Qed.

Lemma write_all_app files1 files2 d :
  write_all (files1 ++ files2) d = write_all files2 (write_all files1 d).
Proof. unfold write_all. apply foldl_app. Qed.

Lemma with_disk_disk w : with_disk w (disk w) = w.
Proof. destruct w. reflexivity. Qed.

(** One turn of the inner loop, when it does not raise: the pair is yielded
    under the running index, and with [write] on the file was opened and
    written. *)
Lemma process_artifact_inv `{Libraries} can_open prefix write resp st a st' w w' :
  process_artifact can_open prefix write resp st a w = (Ok st', w') ->
  st' = (S st.1, (st.2 ++ [(out_p prefix resp st.1 a, a)])%list) /\
  w' = (if write
        then with_disk w (<[out_p prefix resp st.1 a := (ext_and_contents a).2]> (disk w))
        else w) /\
  (write = true -> can_open (out_p prefix resp st.1 a) = true).
Proof.
  unfold process_artifact. intros Hrun.
  apply bind_Ok_inv in Hrun as (u & w0 & Hwrite & Hret).
  unfold ret in Hret. injection Hret as <- <-.
  destruct write.
  - unfold write_file in Hwrite.
    destruct (can_open (out_p prefix resp st.1 a)) eqn:Hopen; [| discriminate Hwrite].
    injection Hwrite as _ <-. repeat split.
  - unfold ret in Hwrite. injection Hwrite as _ <-. repeat split. discriminate.
Qed.

(** The inner loop over the artifacts of one answer, when it does not raise,
    continues the numbering where the state stands. *)
Lemma process_artifact_loop `{Libraries} can_open prefix write resp artifacts st w st' w' :
  for_each artifacts (process_artifact can_open prefix write resp) st w = (Ok st', w') ->
  st' = ((st.1 + length artifacts)%nat,
         (st.2 ++ number_from prefix st.1 (map (pair resp) artifacts))%list) /\
  w' = (if write
        then with_disk w
               (write_all (files_of (number_from prefix st.1 (map (pair resp) artifacts)))
                          (disk w))
        else w) /\
  (write = true ->
   Forall (fun item => can_open item.1 = true)
          (number_from prefix st.1 (map (pair resp) artifacts))).
Proof.
  revert st w st' w'.
  induction artifacts as [| a artifacts IH]; intros [idx acc] w st' w' Hrun.
  - cbn in Hrun. unfold ret in Hrun. injection Hrun as <- <-. cbn.
    rewrite Nat.add_0_r, app_nil_r, with_disk_disk.
    split; [reflexivity |]. split; [destruct write; reflexivity | constructor].
  - cbn [for_each] in Hrun.
    apply bind_Ok_inv in Hrun as (st1 & w1 & Hbody & Hrest).
    apply process_artifact_inv in Hbody as (-> & -> & Hopen).
    apply IH in Hrest as (-> & -> & Hall).
    cbn [fst snd map number_from length].
    rewrite <- app_assoc. cbn [app].
    replace (S idx + length artifacts)%nat with (idx + S (length artifacts))%nat by lia.
    split; [reflexivity |]. split.
    + destruct write; reflexivity.
    + intros Hwrite. constructor; [exact (Hopen Hwrite) | exact (Hall Hwrite)].
Qed.

Lemma process_answers_loop `{Libraries} can_open prefix write answers st w st' w' :
  for_each answers
    (fun st resp =>
       for_each (generation.artifacts resp) (process_artifact can_open prefix write resp) st)
    st w = (Ok st', w') ->
  st' = ((st.1 + length (encounter_order answers))%nat,
         (st.2 ++ number_from prefix st.1 (encounter_order answers))%list) /\
  w' = (if write
        then with_disk w
               (write_all (files_of (number_from prefix st.1 (encounter_order answers)))
                          (disk w))
        else w) /\
  (write = true ->
   Forall (fun item => can_open item.1 = true)
          (number_from prefix st.1 (encounter_order answers))).
Proof.
  revert st w st' w'.
  induction answers as [| resp answers IH]; intros [idx acc] w st' w' Hrun.
  - cbn in Hrun. unfold ret in Hrun. injection Hrun as <- <-. cbn.
    rewrite Nat.add_0_r, app_nil_r, with_disk_disk.
    split; [reflexivity |]. split; [destruct write; reflexivity | constructor].
  - cbn [for_each] in Hrun.
    apply bind_Ok_inv in Hrun as (st1 & w1 & Hinner & Hrest).
    apply process_artifact_loop in Hinner as (-> & -> & Hall1).
    apply IH in Hrest as (-> & -> & Hall2).
    cbn [fst snd encounter_order flat_map]. fold (encounter_order answers).
    rewrite number_from_app, !length_app, !length_map, <- app_assoc, Nat.add_assoc.
    split; [reflexivity |]. split.
    + destruct write; [| reflexivity].
      unfold files_of. rewrite map_app, write_all_app. reflexivity.
    + intros Hwrite. apply Forall_app. split; [exact (Hall1 Hwrite) |].
      exact (Hall2 Hwrite).
Qed.





(** The contents are decided by the artifact type alone. *)
Lemma contents_by_type `{Libraries} (a : generation.Artifact) :
  (ext_and_contents a).2
  = match generation.type a with
    | generation.ARTIFACT_IMAGE => generation.binary a
    | generation.ARTIFACT_CLASSIFICATIONS => classifier_to_json a
    | generation.ARTIFACT_TEXT => artifact_to_json a
    | _ => SerializeToString a
    end.
Proof. unfold ext_and_contents. destruct (generation.type a); reflexivity. Qed.

(** The pairs a run yields when it does not raise. *)
Lemma process_artifacts_run `{Libraries} can_open prefix answers write w out w' :
  process_artifacts_from_answers can_open prefix answers write w = (Ok out, w') ->
  out = number_from prefix 0 (encounter_order answers) /\
  w' = (if write then with_disk w (write_all (files_of out) (disk w)) else w) /\
  (write = true -> Forall (fun item => can_open item.1 = true) out).
Proof.
  unfold process_artifacts_from_answers. intros Hrun.
  apply bind_Ok_inv in Hrun as (st & w1 & Hloop & Hret).
  unfold ret in Hret. injection Hret as <- <-.
  apply process_answers_loop in Hloop as (-> & -> & Hall).
  cbn [fst snd app]. repeat split; [exact Hall].
Qed.



(** ** LoRA weights *)

Lemma lora_to_prompt_run `{Libraries} path weights f w :
  safe_open path = Some f ->
  exists w',
    lora_to_prompt path weights w
    = (Ok (lora_prompt (serialize_safetensor f) (take 2 (heap w !!! weights))), w') /\
    heap w' !!! weights = drop 2 (heap w !!! weights) /\
    (forall l, l <> weights -> heap w' !! l = heap w !! l).
Proof.
  intros Hopen. unfold lora_to_prompt, lora_prompt. rewrite Hopen.
  unfold bind at 1. cbn [ret]. unfold bind at 1. cbn [deref].
  destruct (heap w !!! weights) as [| x ws] eqn:Hws.
  - cbn [truthy list_truthy]. unfold bind at 1. cbn [ret].
    unfold bind at 1. cbn [deref]. rewrite Hws. cbn.
    exists w. rewrite Hws. repeat split; reflexivity.
  - change (truthy (x :: ws)) with true. cbv iota.
    unfold append_weight at 1. unfold bind at 1. unfold bind at 1.
    unfold pop0 at 1. rewrite Hws. cbn [ret].
    unfold bind at 1. cbn [deref heap]. rewrite lookup_total_insert_eq.
    destruct ws as [| y ws].
    + cbn. eexists. split; [reflexivity |]. cbn [heap]. split.
      * apply lookup_total_insert_eq.
      * intros l Hl. apply lookup_insert_ne. congruence.
    + change (truthy (y :: ws)) with true. cbv iota.
      unfold append_weight at 1. unfold bind at 1. unfold bind at 1.
      unfold pop0 at 1. cbn [heap]. rewrite lookup_total_insert_eq. cbn [ret].
      eexists. split; [reflexivity |]. cbn [heap]. split.
      * apply lookup_total_insert_eq.
      * intros l Hl. rewrite !lookup_insert_ne by congruence. reflexivity.
Qed.

Lemma drop_min_2 {A} (ws : list A) : drop (Nat.min 2 (length ws)) ws = drop 2 ws.
Proof. destruct ws as [| x [| y ws]]; reflexivity. Qed.

(** C10.  [lora_to_prompt] takes its weights off the list object it is
    handed: after the call the first min(2, length) elements are gone from
    that list (and no other list changed), and the prompt carries them, the
    first named [unet], the second [text_encoder].  A second call on the same
    list object therefore gets the next two elements, or none when at most
    two were there: this is what the loop of [generate] does for two LoRA
    entries that share one list. *)
Theorem lora_to_prompt_consumes_weights `{Libraries}
        (path path2 : string) (weights : loc) (f f2 : bytes) (w : World) :
  safe_open path = Some f ->
  safe_open path2 = Some f2 ->
  let ws := heap w !!! weights in
  exists w' w'',
    lora_to_prompt path weights w
    = (Ok (lora_prompt (serialize_safetensor f) (take 2 ws)), w') /\
    heap w' !!! weights = drop (Nat.min 2 (length ws)) ws /\
    (forall l, l <> weights -> heap w' !! l = heap w !! l) /\
    lora_to_prompt path2 weights w'
    = (Ok (lora_prompt (serialize_safetensor f2) (take 2 (drop 2 ws))), w'') /\
    ((length ws <= 2)%nat ->
     lora_to_prompt path2 weights w' = (Ok (lora_prompt (serialize_safetensor f2) []), w'')) /\
    lora_prompts (Some [(path, weights); (path2, weights)]) [] w
    = (Ok [lora_prompt (serialize_safetensor f) (take 2 ws);
           lora_prompt (serialize_safetensor f2) (take 2 (drop 2 ws))], w'').
Proof.
  intros Hf Hf2 ws.
  destruct (lora_to_prompt_run path weights f w Hf) as (w' & Hrun & Hheap & Hframe).
  destruct (lora_to_prompt_run path2 weights f2 w' Hf2) as (w'' & Hrun2 & _ & _).
  rewrite Hheap in Hrun2. fold ws in Hrun, Hheap, Hrun2.
  exists w', w''. split; [exact Hrun |]. split; [rewrite drop_min_2; exact Hheap |].
  split; [exact Hframe |]. split; [exact Hrun2 |]. split.
  - intros Hlen. rewrite Hrun2. rewrite (drop_ge ws 2 Hlen). reflexivity.
  - unfold lora_prompts. change (truthy (Some _)) with true. cbv iota.
    change (default [] (Some ?l)) with l. cbn [for_each fst snd].
    unfold bind at 1. unfold bind at 1. rewrite Hrun. cbn [ret app].
    unfold bind at 1. unfold bind at 1. rewrite Hrun2. reflexivity.
Qed.

Lemma lora_to_prompt_consumes_weights_witness :
  exists w' w'',
    @lora_to_prompt Sample.libraries "a.safetensors" 1%positive Sample.world
    = (Ok (lora_prompt [] [0.75%float; 0.25%float]), w') /\
    heap w' !!! 1%positive = [0.5%float] /\
    @lora_to_prompt Sample.libraries "a.safetensors" 1%positive w'
    = (Ok (lora_prompt [] [0.5%float]), w'').
Proof.
  destruct (@lora_to_prompt_consumes_weights Sample.libraries
              "a.safetensors" "a.safetensors" 1%positive [] [] Sample.world
              eq_refl eq_refl) as (w' & w'' & H1 & H2 & _ & H3 & _).
  exists w', w''. split; [exact H1 |]. split; [exact H2 | exact H3].
Defined.

(** ** The structure of a successful [generate] *)

Lemma generate_inv `{Libraries} (self : StabilityInference) (a : GenerateArgs) w g w' :
  generate self a w = (Ok g, w') ->
  exists seed w1 texts w2 imgs w3 w4 gp w5 guidance,
    normalize_seed (arg_seed a) w = (Ok seed, w1) /\
    normalize_prompt (arg_prompt a) w1 = (Ok texts, w2) /\
    match arg_init_image a with
    | Some im => image_prompts a im w2 = (Ok imgs, w3)
    | None => imgs = [] /\ w3 = w2
    end /\
    lora_prompts (arg_lora a)
      ((texts ++ negative_prompts (arg_negative_prompt a)) ++ imgs)%list w3
    = (Ok (generator_prompt g), w4) /\
    normalize_guidance_prompt (arg_guidance_prompt a) w4 = (Ok gp, w5) /\
    guidance_parameters a gp w5 = (Ok guidance, w') /\
    generator_image_parameters g
    = generation.mkImageParameters
        (generation.Transform_diffusion (arg_sampler a))
        (arg_height a) (arg_width a) seed (arg_steps a) (arg_samples a)
        [StepParameter_kw
           match guidance with
           | Some gd => <["guidance" := KGuidance gd]> (step_parameters_base a)
           | None => step_parameters_base a
           end]
        (hires_parameters a) (arg_tiling a).
Proof.
  unfold generate. intros Hgen.
  destruct (prompt_is_None (arg_prompt a) && is_None (arg_init_image a));
    [discriminate Hgen |].
  destruct (negb (is_None (arg_mask_image a)) && is_None (arg_init_image a));
    [discriminate Hgen |].
  apply bind_Ok_inv in Hgen as (seed & w1 & Hseed & Hgen).
  apply bind_Ok_inv in Hgen as (texts & w2 & Htexts & Hgen).
  apply bind_Ok_inv in Hgen as (prompts & w3 & Himgs & Hgen).
  apply bind_Ok_inv in Hgen as (prompts' & w4 & Hlora & Hgen).
  apply bind_Ok_inv in Hgen as (gp & w5 & Hgp & Hgen).
  apply bind_Ok_inv in Hgen as (guidance & w6 & Hguidance & Hgen).
  apply ret_inv in Hgen as [<- <-].
  assert (Himgs' : exists imgs,
             match arg_init_image a with
             | Some im => image_prompts a im w2 = (Ok imgs, w3)
             | None => imgs = [] /\ w3 = w2
             end /\
             prompts = ((texts ++ negative_prompts (arg_negative_prompt a)) ++ imgs)%list).
  { destruct (arg_init_image a) as [im |].
    - apply bind_Ok_inv in Himgs as (imgs & w3' & Himgs & Hret).
      apply ret_inv in Hret as [<- <-]. exists imgs. split; [exact Himgs | reflexivity].
    - apply ret_inv in Himgs as [<- <-]. exists []. rewrite app_nil_r.
      repeat split; reflexivity. }
  destruct Himgs' as (imgs & Himgs' & ->).
  exists seed, w1, texts, w2, imgs, w3, w4, gp, w5, guidance.
  destruct (arg_as_async a); cbn [generator_prompt generator_image_parameters];
    repeat (split; [assumption |]); reflexivity.
Qed.

Lemma lora_to_prompt_type `{Libraries} path weights w p w' :
  lora_to_prompt path weights w = (Ok p, w') -> prompt_type p = generation.ARTIFACT_LORA.
Proof.
  unfold lora_to_prompt. intros Hrun.
  apply bind_Ok_inv in Hrun as (f & w1 & _ & Hrun).
  apply bind_Ok_inv in Hrun as (ws & w2 & _ & Hrun).
  apply bind_Ok_inv in Hrun as (lora & w3 & _ & Hrun).
  apply bind_Ok_inv in Hrun as (ws' & w4 & _ & Hrun).
  apply bind_Ok_inv in Hrun as (lora' & w5 & _ & Hrun).
  apply ret_inv in Hrun as [<- _]. reflexivity.
Qed.

Lemma lora_loop_shape `{Libraries} entries prompts w out w' :
  for_each entries
    (fun prompts entry =>
       p <- lora_to_prompt entry.1 entry.2 ;; ret (prompts ++ [p])%list)
    prompts w = (Ok out, w') ->
  exists loras,
    out = (prompts ++ loras)%list /\
    Forall (fun p => prompt_type p = generation.ARTIFACT_LORA) loras.
Proof.
  revert prompts w. induction entries as [| entry entries IH]; intros prompts w Hrun.
  - apply ret_inv in Hrun as [<- _]. exists []. rewrite app_nil_r. split; constructor.
  - cbn [for_each] in Hrun.
    apply bind_Ok_inv in Hrun as (prompts1 & w1 & Hbody & Hrun).
    apply bind_Ok_inv in Hbody as (p & w0 & Hp & Hret).
    apply ret_inv in Hret as [<- <-].
    destruct (IH _ _ Hrun) as (loras & -> & Hloras).
    exists (p :: loras). rewrite <- app_assoc. split; [reflexivity |].
    constructor; [exact (lora_to_prompt_type _ _ _ _ _ Hp) | exact Hloras].
Qed.

Lemma lora_prompts_shape `{Libraries} lora prompts w out w' :
  lora_prompts lora prompts w = (Ok out, w') ->
  exists loras,
    out = (prompts ++ loras)%list /\
    Forall (fun p => prompt_type p = generation.ARTIFACT_LORA) loras.
Proof.
  unfold lora_prompts. destruct (truthy lora).
  - apply lora_loop_shape.
  - intros Hret. apply ret_inv in Hret as [<- _]. exists []. rewrite app_nil_r.
    split; constructor.
Qed.

(** The prompts built for the images: the init image prompt, then the mask
    prompts, then the depth prompts. *)
Lemma image_prompts_run `{Libraries} (a : GenerateArgs) (im : Image) (w : World) :
  exists um ud w',
    image_prompts a im w
    = (Ok (image_prompt generation.ARTIFACT_IMAGE (uuid_source w (uuid_calls w))
                        (save_png im) true
             :: mask_prompts a (uuid_source w (uuid_calls w)) um
             ++ depth_prompts a (uuid_source w (uuid_calls w)) ud)%list, w').
Proof.
  exists (uuid_source w (S (uuid_calls w))).
  exists (uuid_source w (match arg_mask_image a with
                         | Some _ => S (S (uuid_calls w))
                         | None => S (uuid_calls w)
                         end)).
  unfold image_prompts, mask_prompts, depth_prompts.
  destruct (arg_mask_image a) as [m |], (arg_mask_from_image_alpha a),
    (arg_depth_image a) as [d |], (arg_depth_from_image a);
    eexists; reflexivity.
Qed.

Lemma guidance_parameters_inv `{Libraries} (a : GenerateArgs) gp w guidance w' :
  guidance_parameters a gp w = (Ok guidance, w') ->
  (is_Some guidance <->
   arg_guidance_preset a <> generation.GUIDANCE_PRESET_NONE
   \/ is_Some (arg_guidance_strength a))
  /\ (forall gd, guidance = Some gd -> length (generation.instances gd) = 1%nat).
Proof.
  unfold guidance_parameters. intros Hrun.
  destruct (negb (arg_guidance_preset a =? generation.GUIDANCE_PRESET_NONE)
            || negb (is_None (arg_guidance_strength a))) eqn:Hcond.
  - apply bind_Ok_inv in Hrun as (prompt & w1 & _ & Hret).
    apply ret_inv in Hret as [<- _]. split.
    + split; [| intros _; eexists; reflexivity].
      intros _. apply orb_true_iff in Hcond as [Hp | Hs].
      * left. apply negb_true_iff, Z.eqb_neq in Hp. exact Hp.
      * right. destruct (arg_guidance_strength a); [eexists; reflexivity | discriminate].
    + intros gd [= <-]. reflexivity.
  - apply ret_inv in Hrun as [<- _]. split.
    + split; [intros [gd Hgd]; discriminate |].
      apply orb_false_iff in Hcond as [Hp Hs].
      apply negb_false_iff, Z.eqb_eq in Hp.
      intros [Hne | [x Hx]]; [congruence |].
      rewrite Hx in Hs. discriminate.
    + intros gd Hgd. discriminate.
Qed.

Lemma depth_prompts_type `{Libraries} (a : GenerateArgs) u0 ud :
  Forall (fun p => prompt_type p = generation.ARTIFACT_DEPTH) (depth_prompts a u0 ud).
Proof.
  unfold depth_prompts.
  destruct (arg_depth_image a), (arg_depth_from_image a); repeat constructor.
Qed.

Lemma mask_prompts_type `{Libraries} (a : GenerateArgs) u0 um :
  Forall (fun p => prompt_type p = generation.ARTIFACT_MASK) (mask_prompts a u0 um)
  /\ (length (mask_prompts a u0 um) <= 1)%nat.
Proof.
  unfold mask_prompts.
  destruct (arg_mask_image a), (arg_mask_from_image_alpha a); cbn;
    split; repeat constructor.
Qed.

(** The prompt sequence of a successful call with an init image: the text
    prompts, the negative prompt, the init image prompt, the mask prompts,
    the depth prompts, the LoRA prompts. *)
Lemma generate_prompts_with_init `{Libraries} self (a : GenerateArgs) im w g w' :
  arg_init_image a = Some im ->
  generate self a w = (Ok g, w') ->
  exists texts w1 w2 u0 um ud loras,
    normalize_prompt (arg_prompt a) w1 = (Ok texts, w2) /\
    generator_prompt g
    = ((texts ++ negative_prompts (arg_negative_prompt a))
       ++ (image_prompt generation.ARTIFACT_IMAGE u0 (save_png im) true
             :: mask_prompts a u0 um ++ depth_prompts a u0 ud)
       ++ loras)%list /\
    Forall (fun p => prompt_type p = generation.ARTIFACT_LORA) loras.
Proof.
  intros Hinit Hgen.
  destruct (generate_inv self a w g w' Hgen)
    as (seed & w1 & texts & w2 & imgs & w3 & w4 & gp & w5 & guidance
        & _ & Htexts & Himgs & Hlora & _).
  rewrite Hinit in Himgs.
  destruct (image_prompts_run a im w2) as (um & ud & w3' & Hrun).
  rewrite Hrun in Himgs. injection Himgs as <- <-.
  destruct (lora_prompts_shape _ _ _ _ _ Hlora) as (loras & Hout & Hloras).
  exists texts, w1, w2, (uuid_source w2 (uuid_calls w2)), um, ud, loras.
  split; [exact Htexts |]. split; [| exact Hloras].
  rewrite Hout, <- app_assoc. reflexivity.
Qed.

(** ** Calls that return *)

Lemma normalize_seed_returns (seed : SeedArg) (w : World) :
  exists l w', normalize_seed seed w = (Ok l, w').
Proof.
  unfold normalize_seed.
  destruct seed as [| z | l]; try (destruct (truthy _); do 2 eexists; reflexivity).
  do 2 eexists. reflexivity.
Qed.

(** The sample calls used below return. *)
Lemma sample_plain_call_returns :
  exists g w',
    @generate Sample.libraries Sample.client Sample.plain_args Sample.world = (Ok g, w').
Proof. do 2 eexists. reflexivity. Qed.

Lemma sample_alpha_mask_call_returns :
  exists g w',
    @generate Sample.libraries Sample.client Sample.alpha_mask_args Sample.world
    = (Ok g, w').
Proof.
  destruct (@generate Sample.libraries Sample.client Sample.alpha_mask_args Sample.world)
    as [[g | e] w'] eqn:Hgen; [| vm_compute in Hgen; discriminate Hgen].
  exists g, w'. reflexivity.
Qed.

(** ** The mask taken from the alpha channel *)

(** C8.  With [mask_from_image_alpha] set, an init image and no mask image,
    the prompt sequence of a call that returns holds the init image prompt
    (inline, under its UUID) directly followed by a mask prompt whose
    artifact is a reference to that UUID, not inline data, with the two
    adjustments channel split (alpha into the three colours, alpha discarded)
    and invert, in this order; no other mask prompt follows. *)
Theorem alpha_mask_prompt_after_init `{Libraries}
        (self : StabilityInference) (a : GenerateArgs) (im : Image) (w : World)
        (g : Generator) (w' : World) :
  arg_init_image a = Some im ->
  arg_mask_image a = None ->
  arg_mask_from_image_alpha a = true ->
  generate self a w = (Ok g, w') ->
  exists before u after,
    generator_prompt g
    = (before
       ++ [image_prompt generation.ARTIFACT_IMAGE u (save_png im) true;
           reference_prompt generation.ARTIFACT_MASK u
             [generation.Adjust_channels generation.CHANNEL_A generation.CHANNEL_A
                                         generation.CHANNEL_A generation.CHANNEL_DISCARD;
              generation.Adjust_invert]]
       ++ after)%list /\
    Forall (fun p => prompt_type p <> generation.ARTIFACT_MASK) after.
Proof.
  intros Hinit Hmask Halpha Hgen.
  destruct (generate_prompts_with_init self a im w g w' Hinit Hgen)
    as (texts & w1 & w2 & u0 & um & ud & loras & _ & Hprompts & Hloras).
  exists (texts ++ negative_prompts (arg_negative_prompt a))%list, u0,
    (depth_prompts a u0 ud ++ loras)%list.
  split.
  - rewrite Hprompts. unfold mask_prompts. rewrite Hmask, Halpha.
    cbn [app]. rewrite <- !app_assoc. reflexivity.
  - apply Forall_app. split.
    + eapply Forall_impl; [apply depth_prompts_type |].
      intros p Hp. cbn in Hp. rewrite Hp. discriminate.
    + eapply Forall_impl; [exact Hloras |].
      intros p Hp. cbn in Hp. rewrite Hp. discriminate.
Qed.

Lemma alpha_mask_prompt_after_init_witness :
  exists g w',
    @generate Sample.libraries Sample.client Sample.alpha_mask_args Sample.world
    = (Ok g, w') /\
    exists before u after,
      generator_prompt g
      = (before
         ++ [image_prompt generation.ARTIFACT_IMAGE u [] true;
             reference_prompt generation.ARTIFACT_MASK u
               [generation.Adjust_channels generation.CHANNEL_A generation.CHANNEL_A
                                           generation.CHANNEL_A generation.CHANNEL_DISCARD;
                generation.Adjust_invert]]
         ++ after)%list /\
      Forall (fun p => prompt_type p <> generation.ARTIFACT_MASK) after.
Proof.
  destruct sample_alpha_mask_call_returns as (g & w' & Hgen).
  exists g, w'. split; [exact Hgen |].
  exact (@alpha_mask_prompt_after_init Sample.libraries Sample.client
           Sample.alpha_mask_args [] Sample.world g w' eq_refl eq_refl eq_refl Hgen).
Defined.

(** ** The depth-map prompt *)

(** Without an init image the prompt sequence of a call that returns is
    the text prompts, the negative prompt if any and the LoRA prompts. *)
Lemma generate_prompts_without_init `{Libraries} self (a : GenerateArgs) w g w' :
  arg_init_image a = None ->
  generate self a w = (Ok g, w') ->
  exists texts w1 w2 loras,
    normalize_prompt (arg_prompt a) w1 = (Ok texts, w2) /\
    generator_prompt g
    = (texts ++ negative_prompts (arg_negative_prompt a) ++ loras)%list /\
    Forall (fun p => prompt_type p = generation.ARTIFACT_LORA) loras.
Proof.
  intros Hinit Hgen.
  destruct (generate_inv self a w g w' Hgen)
    as (seed & w1 & texts & w2 & imgs & w3 & w4 & gp & w5 & guidance
        & _ & Htexts & Himgs & Hlora & _).
  rewrite Hinit in Himgs. destruct Himgs as [-> ->].
  destruct (lora_prompts_shape _ _ _ _ _ Hlora) as (loras & Hout & Hloras).
  exists texts, w1, w2, loras.
  split; [exact Htexts |]. split; [| exact Hloras].
  rewrite Hout, app_nil_r, <- app_assoc. reflexivity.
Qed.

(** C5, as amended.  In a call that returns: with an init image and exactly
    one of a depth image and [depth_from_image], the prompt sequence is the
    text prompts, the negative prompt if any, the init image prompt, at most
    one mask prompt, then exactly one depth-map prompt, then the LoRA
    prompts, where the depth-map prompt is the inline depth image when one is
    supplied, and otherwise a reference to the init image prompt's UUID with
    the depth adjustment; without an init image no depth-map prompt is built,
    whatever the depth settings are: the sequence is the text prompts, the
    negative prompt if any and the LoRA prompts. *)
Theorem depth_prompt_position `{Libraries}
        (self : StabilityInference) (a : GenerateArgs) (w : World)
        (g : Generator) (w' : World) :
  generate self a w = (Ok g, w') ->
  (forall im,
      arg_init_image a = Some im ->
      (arg_depth_image a <> None /\ arg_depth_from_image a = false) \/
      (arg_depth_image a = None /\ arg_depth_from_image a = true) ->
      exists texts u0 masks depth loras,
        generator_prompt g
        = (texts ++ negative_prompts (arg_negative_prompt a)
           ++ [image_prompt generation.ARTIFACT_IMAGE u0 (save_png im) true]
           ++ masks ++ [depth] ++ loras)%list /\
        (exists w1 w2, normalize_prompt (arg_prompt a) w1 = (Ok texts, w2)) /\
        (length masks <= 1)%nat /\
        Forall (fun p => prompt_type p = generation.ARTIFACT_MASK) masks /\
        Forall (fun p => prompt_type p = generation.ARTIFACT_LORA) loras /\
        match arg_depth_image a with
        | Some depth_image =>
            exists ud,
              depth = image_prompt generation.ARTIFACT_DEPTH ud (save_png depth_image) false
        | None =>
            depth = reference_prompt generation.ARTIFACT_DEPTH u0 [generation.Adjust_depth]
        end) /\
  (arg_init_image a = None ->
   exists texts loras,
     generator_prompt g
     = (texts ++ negative_prompts (arg_negative_prompt a) ++ loras)%list /\
     (exists w1 w2, normalize_prompt (arg_prompt a) w1 = (Ok texts, w2)) /\
     Forall (fun p => prompt_type p = generation.ARTIFACT_LORA) loras).
Proof.
  intros Hgen. split.
  - intros im Hinit Hdepth.
    destruct (generate_prompts_with_init self a im w g w' Hinit Hgen)
      as (texts & w1 & w2 & u0 & um & ud & loras & Htexts & Hprompts & Hloras).
    destruct (mask_prompts_type a u0 um) as [Hmasks Hlen].
    assert (Hone : exists depth,
               depth_prompts a u0 ud = [depth] /\
               match arg_depth_image a with
               | Some depth_image =>
                   exists ud,
                     depth = image_prompt generation.ARTIFACT_DEPTH ud
                                          (save_png depth_image) false
               | None =>
                   depth = reference_prompt generation.ARTIFACT_DEPTH u0
                                            [generation.Adjust_depth]
               end).
    { unfold depth_prompts.
      destruct Hdepth as [[Hd Hf] | [Hd Hf]]; rewrite Hf.
      - destruct (arg_depth_image a) as [d |]; [| congruence].
        eexists. split; [reflexivity |]. exists ud. reflexivity.
      - rewrite Hd. eexists. split; reflexivity. }
    destruct Hone as (depth & Hone & Hkind).
    exists texts, u0, (mask_prompts a u0 um), depth, loras.
    split; [| split; [| split; [| split; [| split]]]].
    + rewrite Hprompts, Hone. cbn [app]. rewrite <- !app_assoc. reflexivity.
    + exists w1, w2. exact Htexts.
    + exact Hlen.
    + exact Hmasks.
    + exact Hloras.
    + exact Hkind.
  - intros Hinit.
    destruct (generate_prompts_without_init self a w g w' Hinit Hgen)
      as (texts & w1 & w2 & loras & Htexts & Hprompts & Hloras).
    exists texts, loras. split; [exact Hprompts |].
    split; [exists w1, w2; exact Htexts | exact Hloras].
Qed.

Lemma depth_prompt_position_witness :
  exists g w',
    @generate Sample.libraries Sample.client Sample.alpha_mask_args Sample.world
    = (Ok g, w') /\
    exists texts u0 masks depth loras,
      generator_prompt g
      = (texts ++ []
         ++ [image_prompt generation.ARTIFACT_IMAGE u0 [] true]
         ++ masks ++ [depth] ++ loras)%list /\
      (length masks <= 1)%nat /\
      depth = reference_prompt generation.ARTIFACT_DEPTH u0 [generation.Adjust_depth].
Proof.
  destruct sample_alpha_mask_call_returns as (g & w' & Hgen).
  exists g, w'. split; [exact Hgen |].
  destruct (@depth_prompt_position Sample.libraries Sample.client
              Sample.alpha_mask_args Sample.world g w' Hgen) as [Hshape _].
  destruct (Hshape [] eq_refl (or_intror (conj eq_refl eq_refl)))
    as (texts & u0 & masks & depth & loras & Hp & _ & Hlen & _ & _ & Hd).
  exists texts, u0, masks, depth, loras.
  split; [exact Hp |]. split; [exact Hlen | exact Hd].
Defined.

(** C5, as stated, fails: without an init image no depth-map prompt is built,
    neither for a supplied depth image nor for [depth_from_image]; the prompt
    sequence is the text prompt alone. *)
Lemma depth_prompt_counterexample :
  (exists g w',
      @generate Sample.libraries Sample.client Sample.depth_image_only_args Sample.world
      = (Ok g, w') /\
      generator_prompt g = [text_prompt "a cat"]) /\
  (exists g w',
      @generate Sample.libraries Sample.client Sample.depth_from_image_only_args
                Sample.world
      = (Ok g, w') /\
      generator_prompt g = [text_prompt "a cat"]).
Proof. split; do 2 eexists; split; reflexivity. Qed.

(** ** Presence of the optional blocks *)

(** The step block of the request. *)
Lemma step_blocks `{Libraries} (a : GenerateArgs)
      (guidance : option generation.GuidanceParameters) :
  let step :=
    StepParameter_kw
      match guidance with
      | Some gd => <["guidance" := KGuidance gd]> (step_parameters_base a)
      | None => step_parameters_base a
      end in
  generation.sampler step = Some (SamplerParameters_kw (sampler_parameters a)) /\
  generation.guidance step = guidance /\
  generation.schedule step
  = match arg_init_image a with
    | Some _ => Some (generation.mkScheduleParameters (Some (arg_start_schedule a))
                                                      (Some (arg_end_schedule a)))
    | None => None
    end.
Proof.
  unfold step_parameters_base, StepParameter_kw.
  destruct guidance as [gd |], (arg_init_image a) as [im |]; cbn [is_None negb];
    repeat split; reflexivity.
Qed.

(** C4, as amended.  In the request of a call that returns: the churn
    block is present iff a churn value is supplied (given and not zero),
    whatever [churn_tmin] and [churn_tmax] are; the sigma block is always
    present, holding the supplied ones of its three fields, so empty when
    none is supplied; the schedule block is present iff there is an init
    image; the guidance block is present iff the preset is not the default
    one or a guidance strength is given, whatever the cutouts, models and
    guidance prompt are; the hi-res-fix block is present iff [hires_fix] or
    [hires_oos_fraction] is given. *)
Theorem optional_blocks_presence `{Libraries}
        (self : StabilityInference) (a : GenerateArgs) (w : World)
        (g : Generator) (w' : World) :
  generate self a w = (Ok g, w') ->
  exists step sampler,
    generation.step_parameters (generator_image_parameters g) = [step] /\
    generation.sampler step = Some sampler /\
    (is_Some (generation.sampler_churn sampler) <-> is_Some (supplied (arg_churn a))) /\
    is_Some (generation.sampler_sigma sampler) /\
    (generation.sampler_sigma sampler
     = Some (generation.mkSigmaParameters
               (supplied (arg_sigma_min a)) (supplied (arg_sigma_max a))
               (supplied (arg_karras_rho a)))) /\
    (is_Some (generation.schedule step) <-> is_Some (arg_init_image a)) /\
    (is_Some (generation.guidance step) <->
     arg_guidance_preset a <> generation.GUIDANCE_PRESET_NONE
     \/ is_Some (arg_guidance_strength a)) /\
    (is_Some (generation.hires (generator_image_parameters g)) <->
     is_Some (arg_hires_fix a) \/ is_Some (arg_hires_oos_fraction a)).
Proof.
  intros Hgen.
  destruct (generate_inv self a w g w' Hgen)
    as (seed & w1 & texts & w2 & imgs & w3 & w4 & gp & w5 & guidance
        & _ & _ & _ & _ & _ & Hguidance & Himage).
  destruct (step_blocks a guidance) as (Hsampler & Hgd & Hschedule).
  destruct (guidance_parameters_inv a gp w5 guidance w' Hguidance) as [Hpresent _].
  eexists. exists (SamplerParameters_kw (sampler_parameters a)).
  rewrite Himage. cbn [generation.step_parameters generation.hires].
  split; [reflexivity |]. split; [exact Hsampler |].
  rewrite Hgd, Hschedule, sampler_message.
  cbn [generation.sampler_churn generation.sampler_sigma].
  split; [| split; [| split; [| split; [| split]]]].
  - destruct (supplied (arg_churn a)); split; intros [x Hx];
      first [discriminate Hx | eexists; reflexivity].
  - eexists. reflexivity.
  - reflexivity.
  - destruct (arg_init_image a); split; intros [x Hx];
      first [discriminate Hx | eexists; reflexivity].
  - exact Hpresent.
  - unfold hires_parameters.
    destruct (arg_hires_fix a) as [hf |], (arg_hires_oos_fraction a) as [f |];
      cbn; split.
    all: try (intros _; first [left; eexists; reflexivity | right; eexists; reflexivity
                              | eexists; reflexivity]).
    + intros [x Hx]. discriminate Hx.
    + intros [[x Hx] | [x Hx]]; discriminate Hx.
Qed.

Lemma optional_blocks_presence_witness :
  exists g w',
    @generate Sample.libraries Sample.client Sample.alpha_mask_args Sample.world
    = (Ok g, w') /\
    exists step sampler,
      generation.step_parameters (generator_image_parameters g) = [step] /\
      generation.sampler step = Some sampler /\
      generation.sampler_sigma sampler
      = Some (generation.mkSigmaParameters None None None) /\
      is_Some (generation.schedule step).
Proof.
  destruct sample_alpha_mask_call_returns as (g & w' & Hgen).
  exists g, w'. split; [exact Hgen |].
  destruct (@optional_blocks_presence Sample.libraries Sample.client
              Sample.alpha_mask_args Sample.world g w' Hgen)
    as (step & sampler & Hstep & Hsampler & _ & _ & Hsigma & Hschedule & _).
  exists step, sampler. split; [exact Hstep |]. split; [exact Hsampler |].
  split; [exact Hsigma |]. apply Hschedule. eexists. reflexivity.
Defined.

(** C4, as stated, fails: in a call that supplies no sigma field the sigma
    block is not omitted, it is sent empty; and a call that supplies
    [churn_tmin] alone gets no churn block. *)
Lemma optional_blocks_counterexample :
  (exists g w',
      @generate Sample.libraries Sample.client Sample.plain_args Sample.world = (Ok g, w') /\
      (generator_step g ≫= generation.sampler) ≫= generation.sampler_sigma
      = Some (generation.mkSigmaParameters None None None)) /\
  (exists g w',
      @generate Sample.libraries Sample.client Sample.churn_tmin_only_args Sample.world
      = (Ok g, w') /\
      (generator_step g ≫= generation.sampler) ≫= generation.sampler_churn = None).
Proof. split; do 2 eexists; split; reflexivity. Qed.

(** * Further properties *)

(** ** Sampler and noise type names *)

Lemma is_space_lower_char (c : Ascii.ascii) : is_space (lower_char c) = is_space c.
Proof. destruct c as [[] [] [] [] [] [] [] []]; reflexivity. Qed.

Lemma lower_char_idempotent (c : Ascii.ascii) : lower_char (lower_char c) = lower_char c.
Proof. destruct c as [[] [] [] [] [] [] [] []]; reflexivity. Qed.

Lemma append_cons (c : Ascii.ascii) (s t : string) :
  String c s ++ t = String c (s ++ t).
Proof. reflexivity. Qed.

Lemma lower_app (s t : string) : lower (s ++ t) = lower s ++ lower t.
Proof.
  induction s as [| c s IH]; [reflexivity |].
  rewrite append_cons. cbn [lower]. rewrite append_cons, IH. reflexivity.
Qed.

Lemma lower_idempotent (s : string) : lower (lower s) = lower s.
Proof.
  induction s as [| c s IH]; cbn [lower]; [reflexivity |].
  rewrite lower_char_idempotent, IH. reflexivity.
Qed.

Lemma all_space_lower (s : string) : all_space (lower s) = all_space s.
Proof.
  induction s as [| c s IH]; cbn [lower all_space]; [reflexivity |].
  rewrite is_space_lower_char, IH. reflexivity.
Qed.

Lemma lstrip_all_space (s : string) : all_space s = true -> lstrip s = "".
Proof.
  induction s as [| c s IH]; cbn [lstrip all_space]; [reflexivity |].
  intros [Hc Hs]%andb_true_iff. rewrite Hc. apply IH, Hs.
Qed.

Lemma rstrip_all_space (s : string) : all_space s = true -> rstrip s = "".
Proof.
  induction s as [| c s IH]; cbn [rstrip all_space]; [reflexivity |].
  intros [Hc Hs]%andb_true_iff. rewrite (IH Hs), Hc. reflexivity.
Qed.

Lemma lstrip_app_space (pre s : string) :
  all_space pre = true -> lstrip (pre ++ s) = lstrip s.
Proof.
  induction pre as [| c pre IH]; cbn [all_space]; [reflexivity |].
  intros [Hc Hs]%andb_true_iff. rewrite append_cons. cbn [lstrip].
  rewrite Hc. apply IH, Hs.
Qed.

Lemma rstrip_app_space (s post : string) :
  all_space post = true -> rstrip (s ++ post) = rstrip s.
Proof.
  intros Hpost. induction s as [| c s IH].
  - apply rstrip_all_space, Hpost.
  - rewrite append_cons. cbn [rstrip]. rewrite IH. reflexivity.
Qed.

Lemma strip_app_space (s post : string) :
  all_space post = true -> strip (s ++ post) = strip s.
Proof.
  intros Hpost. unfold strip. induction s as [| c s IH].
  - change ("" ++ post) with post. rewrite (lstrip_all_space post Hpost). reflexivity.
  - rewrite append_cons. cbn [lstrip]. destruct (is_space c); [exact IH |].
    rewrite <- append_cons. apply rstrip_app_space, Hpost.
Qed.

(** Blanks around a name and the case of its letters do not matter to the
    lookup key. *)
Lemma lookup_key_padding (pre s post : string) :
  all_space pre = true -> all_space post = true ->
  strip (lower (pre ++ s ++ post)) = strip (lower (lower s)).
Proof.
  intros Hpre Hpost. rewrite !lower_app, lower_idempotent.
  unfold strip at 1. rewrite lstrip_app_space by (rewrite all_space_lower; exact Hpre).
  fold (strip (lower s ++ lower post)).
  apply strip_app_space. rewrite all_space_lower. exact Hpost.
Qed.

(** X1.  [get_sampler_from_str] ignores surrounding whitespace and letter
    case: a name padded with blanks on either side, in any case, resolves to
    the sampler its lower-case form resolves to, and is unknown exactly when
    that form is unknown. *)
Theorem get_sampler_from_str_padding_case (pre s post : string) :
  all_space pre = true ->
  all_space post = true ->
  returned (get_sampler_from_str (pre ++ s ++ post))
  = returned (get_sampler_from_str (lower s)).
Proof.
  intros Hpre Hpost. unfold get_sampler_from_str.
  rewrite (lookup_key_padding pre s post Hpre Hpost).
  destruct (SAMPLERS !! strip (lower (lower s))); reflexivity.
Qed.

Lemma get_sampler_from_str_padding_case_witness :
  returned (get_sampler_from_str ("  " ++ "K_Euler_Ancestral" ++ " "))
  = Some SAMPLER_K_EULER_ANCESTRAL.
Proof.
  rewrite (get_sampler_from_str_padding_case "  " "K_Euler_Ancestral" " "
             eq_refl eq_refl).
  reflexivity.
Defined.

(** X2.  [get_noise_type_from_str] ignores surrounding whitespace and letter
    case in the same way. *)
Theorem get_noise_type_from_str_padding_case (pre s post : string) :
  all_space pre = true ->
  all_space post = true ->
  returned (get_noise_type_from_str (pre ++ s ++ post))
  = returned (get_noise_type_from_str (lower s)).
Proof.
  intros Hpre Hpost. unfold get_noise_type_from_str.
  rewrite (lookup_key_padding pre s post Hpre Hpost).
  destruct (NOISE_TYPES !! strip (lower (lower s))); reflexivity.
Qed.

Lemma get_noise_type_from_str_padding_case_witness :
  returned (get_noise_type_from_str (" " ++ "BROWNIAN" ++ "  "))
  = Some SAMPLER_NOISE_BROWNIAN.
Proof.
  rewrite (get_noise_type_from_str_padding_case " " "BROWNIAN" "  " eq_refl eq_refl).
  reflexivity.
Defined.

(** ** What [generate] leaves alone *)

Lemma only_local_effects_refl w : only_local_effects w w.
Proof. unfold only_local_effects. repeat split; reflexivity. Qed.

Lemma only_local_effects_trans w1 w2 w3 :
  only_local_effects w1 w2 -> only_local_effects w2 w3 -> only_local_effects w1 w3.
Proof.
  unfold only_local_effects.
  intros (E1 & U1 & D1 & R1 & S1 & T1 & Hr1 & Hu1) (E2 & U2 & D2 & R2 & S2 & T2 & Hr2 & Hu2).
  repeat split; try congruence; lia.
Qed.

Lemma local_ret {A} (a : A) : local (ret a).
Proof. intros w. apply only_local_effects_refl. Qed.

Lemma local_raise {A} (e : exn) : local (raise (A := A) e).
Proof. intros w. apply only_local_effects_refl. Qed.

Lemma local_bind {A B} (c : M A) (k : A -> M B) :
  local c -> (forall a, local (k a)) -> local (bind c k).
Proof.
  intros Hc Hk w. unfold bind. specialize (Hc w).
  destruct (c w) as [[a | e] w1]; [| exact Hc].
  eapply only_local_effects_trans; [exact Hc | apply Hk].
Qed.

Lemma local_for_each {A B} (xs : list A) (body : B -> A -> M B) (acc : B) :
  (forall acc x, local (body acc x)) -> local (for_each xs body acc).
Proof.
  intros Hbody. revert acc. induction xs as [| x xs IH]; intros acc.
  - apply local_ret.
  - cbn [for_each]. apply local_bind; [apply Hbody | intros acc'; apply IH].
Qed.

Lemma local_randrange start stop : local (randrange start stop).
Proof. intros w. unfold only_local_effects. cbn. repeat split; lia. Qed.

Lemma local_uuid4 : local uuid4.
Proof. intros w. unfold only_local_effects. cbn. repeat split; lia. Qed.

Lemma local_deref l : local (deref l).
Proof. intros w. apply only_local_effects_refl. Qed.

Lemma local_pop0 l : local (pop0 l).
Proof.
  intros w. unfold pop0. destruct (heap w !!! l).
  - apply only_local_effects_refl.
  - unfold only_local_effects. cbn. repeat split; lia.
Qed.

Ltac local_step :=
  lazymatch goal with
  | |- local (bind _ _) => apply local_bind; [| intros ?]
  | |- local (ret _) => apply local_ret
  | |- local (raise _) => apply local_raise
  | |- local (randrange _ _) => apply local_randrange
  | |- local uuid4 => apply local_uuid4
  | |- local (deref _) => apply local_deref
  | |- local (pop0 _) => apply local_pop0
  | |- local (for_each _ _ _) => apply local_for_each; intros ? ?
  | |- local (if ?b then _ else _) => destruct b
  | |- local (match ?x with _ => _ end) => destruct x
  | |- local (let _ := _ in _) => cbv zeta
  end.

Lemma local_image_to_prompt `{Libraries} im init mask depth use_alpha :
  local (image_to_prompt im init mask depth use_alpha).
Proof. unfold image_to_prompt. repeat local_step. Qed.

Lemma local_lora_to_prompt `{Libraries} path weights :
  local (lora_to_prompt path weights).
Proof. unfold lora_to_prompt, append_weight. repeat local_step. Qed.

Lemma local_image_prompts `{Libraries} (a : GenerateArgs) im :
  local (image_prompts a im).
Proof.
  unfold image_prompts.
  repeat first [apply local_image_to_prompt | local_step].
Qed.

Lemma generate_local `{Libraries} (self : StabilityInference) (a : GenerateArgs) :
  local (generate self a).
Proof.
  unfold generate, normalize_seed, normalize_prompt, lora_prompts,
    normalize_guidance_prompt, guidance_parameters, guidance_prompt_field.
  repeat first [apply local_image_prompts | apply local_lora_to_prompt | local_step].
Qed.

(** X3.  [generate] only assembles: whatever its arguments, and whether it
    returns or raises, it makes no remote call, writes no file, prints
    nothing and does not sleep.  The request is not sent before the returned
    generator is iterated. *)
Theorem generate_sends_nothing `{Libraries}
        (self : StabilityInference) (a : GenerateArgs) (w : World) :
  rpc_log (generate self a w).2 = rpc_log w /\
  disk (generate self a w).2 = disk w /\
  stdout (generate self a w).2 = stdout w /\
  slept (generate self a w).2 = slept w.
Proof.
  destruct (generate_local self a w) as (_ & _ & Hd & Hr & Hs & Ht & _ & _).
  repeat split; assumption.
Qed.

(** ** Inputs [generate] refuses or normalizes *)

(** X4.  A call whose prompt is [None] never returns a generator: without an
    init image it raises [ValueError], and with an init image the loop over
    the prompt raises [TypeError], so an init image alone is not enough. *)
Theorem generate_needs_a_prompt `{Libraries}
        (self : StabilityInference) (a : GenerateArgs) (w : World) :
  arg_prompt a = ArgNone ->
  exists e,
    (generate self a w).1 = Raise e /\
    (arg_init_image a = None -> exists msg, e = ValueError msg) /\
    (arg_init_image a <> None ->
     e = TypeError "'NoneType' object is not iterable").
Proof.
  intros Hprompt. unfold generate. rewrite Hprompt. cbn [prompt_is_None andb].
  destruct (arg_init_image a) as [im |]; cbn [is_None].
  - rewrite andb_false_r.
    destruct (normalize_seed_returns (arg_seed a) w) as (seed & w1 & Hseed).
    rewrite (bind_Ok _ _ _ _ _ Hseed). cbn [normalize_prompt].
    eexists. split; [reflexivity |]. split; [discriminate | reflexivity].
  - eexists. split; [reflexivity |]. split; [eexists; reflexivity | congruence].
Qed.

Lemma generate_needs_a_prompt_witness :
  exists e,
    (@generate Sample.libraries Sample.client
               (Sample.args ArgNone (Some []) None None false false None None)
               Sample.world).1 = Raise e /\
    e = TypeError "'NoneType' object is not iterable".
Proof.
  destruct (@generate_needs_a_prompt Sample.libraries Sample.client
              (Sample.args ArgNone (Some []) None None false false None None)
              Sample.world eq_refl) as (e & He & _ & Htype).
  exists e. split; [exact He | apply Htype; discriminate].
Defined.

(** X5.  The seeds of every assembled request form a non-empty list: a
    non-zero integer seed alone, a non-empty sequence as given, and otherwise
    one drawn value below 2^32-1. *)
Theorem request_seed_nonempty `{Libraries}
        (self : StabilityInference) (a : GenerateArgs) (w : World)
        (g : Generator) (w' : World) :
  generate self a w = (Ok g, w') ->
  let seed := generation.seed (generator_image_parameters g) in
  seed <> [] /\
  (forall z, arg_seed a = SeedInt z -> z <> 0 -> seed = [z]) /\
  (forall l, arg_seed a = SeedSeq l -> l <> [] -> seed = l) /\
  (truthy (arg_seed a) = false -> exists r, seed = [r] /\ 0 <= r < 2 ^ 32 - 1).
Proof.
  intros Hgen.
  destruct (generate_inv self a w g w' Hgen)
    as (seed & w1 & texts & w2 & imgs & w3 & w4 & gp & w5 & guidance
        & Hseed & _ & _ & _ & _ & _ & Himage).
  rewrite Himage. cbn [generation.seed]. clear Himage Hgen.
  unfold normalize_seed in Hseed.
  destruct (arg_seed a) as [| z | l].
  - cbn in Hseed. injection Hseed as <- _.
    split; [discriminate |]. split; [discriminate |]. split; [discriminate |].
    intros _. eexists. split; [reflexivity |].
    rewrite Z.sub_0_r, Z.add_0_l. apply Z.mod_pos_bound. lia.
  - change (truthy (SeedInt z)) with (negb (z =? 0)) in *.
    destruct (Z.eqb_spec z 0) as [Hz | Hz]; cbn in Hseed; injection Hseed as <- _.
    + split; [discriminate |]. split; [intros z' [= <-] Hz'; congruence |].
      split; [discriminate |]. intros _. eexists. split; [reflexivity |].
      rewrite Z.sub_0_r, Z.add_0_l. apply Z.mod_pos_bound. lia.
    + split; [discriminate |]. split; [intros z' [= <-] _; reflexivity |].
      split; [discriminate |]. intros Hfalse. discriminate Hfalse.
  - destruct l as [| x l]; cbn in Hseed; injection Hseed as <- _.
    + split; [discriminate |]. split; [discriminate |].
      split; [intros l' [= <-] Hl; congruence |].
      intros _. eexists. split; [reflexivity |].
      rewrite Z.sub_0_r, Z.add_0_l. apply Z.mod_pos_bound. lia.
    + split; [discriminate |]. split; [discriminate |].
      split; [intros l' [= <-] _; reflexivity |]. intros Hfalse. discriminate Hfalse.
Qed.

Lemma request_seed_nonempty_witness :
  exists g w',
    @generate Sample.libraries Sample.client Sample.plain_args Sample.world = (Ok g, w') /\
    generation.seed (generator_image_parameters g) = [42].
Proof.
  destruct sample_plain_call_returns as (g & w' & Hgen).
  exists g, w'. split; [exact Hgen |].
  destruct (@request_seed_nonempty Sample.libraries Sample.client Sample.plain_args
              Sample.world g w' Hgen) as (_ & Hint & _).
  apply (Hint 42); [reflexivity | discriminate].
Defined.

Lemma prompt_loop_spec (l : list PromptElem) (prompts : list generation.Prompt) w :
  for_each l
    (fun prompts p =>
       match p with
       | ElemStr s => ret (prompts ++ [text_prompt s])%list
       | ElemPrompt p => ret (prompts ++ [p])%list
       | ElemOther =>
           raise (TypeError "prompt must be a string or generation.Prompt object")
       end)
    prompts w
  = (match mapM elem_prompt l with
     | Some ps => Ok (prompts ++ ps)%list
     | None => Raise (TypeError "prompt must be a string or generation.Prompt object")
     end, w).
Proof.
  revert prompts. induction l as [| e l IH]; intros prompts.
  - cbn. rewrite app_nil_r. reflexivity.
  - cbn [for_each]. destruct e as [s | p |].
    + unfold bind at 1. cbn [ret]. rewrite IH. cbn.
      destruct (mapM elem_prompt l); cbn; [rewrite <- app_assoc |]; reflexivity.
    + unfold bind at 1. cbn [ret]. rewrite IH. cbn.
      destruct (mapM elem_prompt l); cbn; [rewrite <- app_assoc |]; reflexivity.
    + reflexivity.
Qed.

(** X6.  Prompt normalization keeps order and number: a list of strings and
    [Prompt]s becomes the list of the same length that has a text prompt for
    each string and each [Prompt] unchanged, in the same order; a list with
    any other element raises [TypeError]; a lone string or [Prompt] is
    treated as the one-element list holding it.  The world is untouched. *)
Theorem normalize_prompt_spec (l : list PromptElem) (s : string)
        (p : generation.Prompt) (w : World) :
  normalize_prompt (ArgList l) w
  = (match mapM elem_prompt l with
     | Some ps => Ok ps
     | None => Raise (TypeError "prompt must be a string or generation.Prompt object")
     end, w) /\
  (forall ps, mapM elem_prompt l = Some ps ->
     length ps = length l /\
     forall k e, l !! k = Some e -> elem_prompt e = ps !! k) /\
  normalize_prompt (ArgStr s) w = normalize_prompt (ArgList [ElemStr s]) w /\
  normalize_prompt (ArgPrompt p) w = normalize_prompt (ArgList [ElemPrompt p]) w.
Proof.
  split; [| split; [| split; reflexivity]].
  - unfold normalize_prompt. rewrite prompt_loop_spec. reflexivity.
  - intros ps Hps. apply mapM_Some in Hps. split.
    + symmetry. eapply Forall2_length, Hps.
    + intros k e Hk. destruct (Forall2_lookup_l _ _ _ _ _ Hps Hk) as (q & Hq & Heq).
      rewrite Hq. exact Heq.
Qed.

(** ** Files written by the demultiplexer *)

Lemma write_all_other (files : list (string * bytes)) (d : gmap string bytes) path :
  path ∉ files.*1 -> write_all files d !! path = d !! path.
Proof.
  revert d. induction files as [| [p c] files IH]; intros d Hnot; [reflexivity |].
  cbn in Hnot. apply not_elem_of_cons in Hnot as [Hne Hnot].
  rewrite write_all_cons, (IH _ Hnot). apply lookup_insert_ne. congruence.
Qed.

Lemma write_all_last (files : list (string * bytes)) (d : gmap string bytes) k path c :
  files !! k = Some (path, c) ->
  (forall j path' c', (k < j)%nat -> files !! j = Some (path', c') -> path' <> path) ->
  write_all files d !! path = Some c.
Proof.
  revert d k. induction files as [| [p0 c0] files IH]; intros d k Hk Hlast;
    [discriminate Hk |].
  rewrite write_all_cons.
  destruct k as [| k].
  - injection Hk as -> ->. rewrite write_all_other; [apply lookup_insert_eq |].
    intros Hin. apply list_elem_of_fmap in Hin as ([p' c'] & Hp & Hin). cbn in Hp.
    apply list_elem_of_lookup in Hin as (j & Hj).
    apply (Hlast (S j) p' c'); [lia | exact Hj | congruence].
  - apply (IH _ k Hk). intros j p' c' Hlt Hj.
    apply (Hlast (S j) p' c'); [lia | exact Hj].
Qed.

Lemma write_all_present (files : list (string * bytes)) (d : gmap string bytes) path :
  is_Some (d !! path) \/ path ∈ files.*1 -> is_Some (write_all files d !! path).
Proof.
  revert d. induction files as [| [p c] files IH]; intros d Hin.
  - destruct Hin as [Hd | Hin]; [exact Hd |]. cbn in Hin. inversion Hin.
  - rewrite write_all_cons. apply IH.
    destruct (decide (p = path)) as [-> | Hne].
    + left. rewrite lookup_insert_eq. eexists. reflexivity.
    + destruct Hin as [Hd | Hin].
      * left. rewrite lookup_insert_ne by exact Hne. exact Hd.
      * right. cbn in Hin. apply elem_of_cons in Hin as [Heq | Hin];
          [congruence | exact Hin].
Qed.

Lemma files_of_names `{Libraries} (out : list (string * generation.Artifact)) :
  (files_of out).*1 = out.*1.
Proof.
  unfold files_of. induction out as [| [p a] out IH]; [reflexivity |].
  cbn. rewrite <- IH. reflexivity.
Qed.

(** X7.  A run of the demultiplexer with [write] on that does not raise
    leaves on disk one file per name it yields and touches no other file: a
    file of another name is as it was; every yielded name was accepted by
    [open] and has a file; the file under a yielded name holds the contents
    of the last artifact yielded under that name, which are by type the raw
    binary of an image, the JSON of the classifier of classifications, the
    JSON of a text artifact, and the serialized artifact otherwise; and
    nothing but the disk changes. *)
Theorem process_artifacts_writes `{Libraries} (can_open : string -> bool)
        (prefix : string) (answers : list generation.Answer) (w : World)
        (out : list (string * generation.Artifact)) (w' : World) :
  process_artifacts_from_answers can_open prefix answers true w = (Ok out, w') ->
  w' = with_disk w (disk w') /\
  (forall path, path ∉ out.*1 -> disk w' !! path = disk w !! path) /\
  (forall path, path ∈ out.*1 -> can_open path = true /\ is_Some (disk w' !! path)) /\
  (forall k path a,
      out !! k = Some (path, a) ->
      (forall j path' a', (k < j)%nat -> out !! j = Some (path', a') -> path' <> path) ->
      disk w' !! path
      = Some match generation.type a with
             | generation.ARTIFACT_IMAGE => generation.binary a
             | generation.ARTIFACT_CLASSIFICATIONS => classifier_to_json a
             | generation.ARTIFACT_TEXT => artifact_to_json a
             | _ => SerializeToString a
             end).
Proof.
  intros Hrun. apply process_artifacts_run in Hrun as (Hout & -> & Hopen).
  clear Hout. cbn [disk with_disk]. split; [reflexivity |]. split; [| split].
  - intros path Hnot. apply write_all_other. rewrite files_of_names. exact Hnot.
  - intros path Hin. split.
    + apply list_elem_of_fmap in Hin as ([p a] & -> & Hin).
      exact (proj1 (Forall_forall _ _) (Hopen eq_refl) _ Hin).
    + apply write_all_present. right. rewrite files_of_names. exact Hin.
  - intros k path a Hk Hlast. rewrite <- contents_by_type.
    apply (write_all_last _ _ k).
    + unfold files_of. rewrite list_lookup_fmap, Hk. reflexivity.
    + intros j path' c' Hlt Hj. unfold files_of in Hj.
      rewrite list_lookup_fmap in Hj.
      destruct (out !! j) as [[p' a'] |] eqn:Hout; [| discriminate Hj].
      cbn in Hj. injection Hj as <- _. exact (Hlast j p' a' Hlt Hout).
Qed.

(** Two answers of one image each: both files are on disk afterwards. *)
Lemma process_artifacts_writes_witness :
  exists out w',
    @process_artifacts_from_answers Sample.libraries (fun _ => true) "out"
      [Sample.answer 1; Sample.answer 2] true Sample.world = (Ok out, w') /\
    disk Sample.world !! "out-rq-2-1.png" = None /\
    is_Some (disk w' !! "out-rq-2-1.png").
Proof.
  destruct (@process_artifacts_from_answers Sample.libraries (fun _ => true) "out"
              [Sample.answer 1; Sample.answer 2] true Sample.world) as [[out | e] w'] eqn:Hrun;
    [| vm_compute in Hrun; discriminate Hrun].
  exists out, w'. split; [reflexivity |]. split; [reflexivity |].
  destruct (@process_artifacts_writes Sample.libraries (fun _ => true) "out"
              [Sample.answer 1; Sample.answer 2] Sample.world out w' Hrun)
    as (_ & _ & Hpresent & _).
  apply Hpresent.
  apply process_artifacts_run in Hrun as (-> & _ & _).
  vm_compute. apply list_elem_of_In. right. left. reflexivity.
Defined.

(** ** Showing images *)

Lemma open_images_cons `{Libraries} (Image_open : bytes -> option Image) path a images :
  open_images Image_open ((path, a) :: images)
  = let run := open_images Image_open images in
    if is_image a then
      match Image_open (generation.binary a) with
      | Some img =>
          mkOpenImagesRun ((path, a) :: opened_yielded run)
                          (img :: opened_shown run) (opened_failed run)
      | None => mkOpenImagesRun [] [] (Some path)
      end
    else
      mkOpenImagesRun ((path, a) :: opened_yielded run)
                      (opened_shown run) (opened_failed run).
Proof. cbn [open_images]. unfold is_image. destruct (generation.type a); reflexivity. Qed.

Lemma decoded_images_cons `{Libraries} (Image_open : bytes -> option Image) path a images :
  decoded_images Image_open ((path, a) :: images)
  = if is_image a
    then Image_open (generation.binary a) :: decoded_images Image_open images
    else decoded_images Image_open images.
Proof. unfold decoded_images. cbn. destruct (is_image a); reflexivity. Qed.

(** X8.  [open_images] passes its input through: what it yields is a prefix
    of the pairs it was given, unchanged and in order, and all of them when
    every image artifact decodes; it shows exactly the decoded images of the
    pairs it yielded, in order, and artifacts of other types are never
    opened; it stops, with nothing more yielded, at the first image artifact
    whose data does not decode: the pair that follows the yielded prefix in
    the input is an image artifact that [Image.open] refuses, and the run
    fails at the path of that pair. *)
Theorem open_images_passthrough `{Libraries}
        (Image_open : bytes -> option Image)
        (images : list (string * generation.Artifact)) :
  let run := open_images Image_open images in
  (exists rest, images = (opened_yielded run ++ rest)%list) /\
  map Some (opened_shown run) = decoded_images Image_open (opened_yielded run) /\
  (opened_failed run = None <-> opened_yielded run = images) /\
  (opened_failed run = None <->
   Forall (fun o => is_Some o) (decoded_images Image_open images)) /\
  (forall path,
      opened_failed run = Some path ->
      exists a rest,
        images = (opened_yielded run ++ (path, a) :: rest)%list /\
        is_image a = true /\
        Image_open (generation.binary a) = None).
Proof.
  cbv zeta. induction images as [| [path a] images IH].
  - cbn. split; [exists []; reflexivity |]. split; [reflexivity |].
    split; [split; intros _; constructor |].
    split; [split; intros _; constructor |]. intros path Hpath. discriminate Hpath.
  - destruct IH as ((rest & Hrest) & Hshown & Hall & Hdec & Hstop).
    rewrite open_images_cons, (decoded_images_cons _ path a images). cbv zeta.
    destruct (is_image a) eqn:Himage;
      [destruct (Image_open (generation.binary a)) as [img |] eqn:Hopen |];
      cbn [opened_yielded opened_shown opened_failed].
    + split; [exists rest; cbn [app]; congruence |].
      split; [rewrite decoded_images_cons, Himage, Hopen; cbn [map]; congruence |].
      split; [rewrite Hall; split; [congruence | intros [= E]; exact E] |].
      split.
      * rewrite Hdec. split.
        -- intros Hrest'. constructor; [eexists; reflexivity | exact Hrest'].
        -- intros Hrest'. inversion Hrest'. assumption.
      * intros path' Hpath. destruct (Hstop path' Hpath) as (a' & rest' & Himages & Ha').
        exists a', rest'. split; [cbn [app]; congruence | exact Ha'].
    + split; [eexists; reflexivity |]. split; [reflexivity |].
      split; [split; discriminate |].
      split.
      * split; [discriminate |]. intros Hrest'.
        inversion Hrest' as [| ? ? [x Hx] ?]. discriminate Hx.
      * intros path' [= <-]. exists a, images. repeat split; assumption.
    + split; [exists rest; cbn [app]; congruence |].
      split; [rewrite decoded_images_cons, Himage; exact Hshown |].
      split; [rewrite Hall; split; [congruence | intros [= E]; exact E] |].
      split; [exact Hdec |].
      intros path' Hpath. destruct (Hstop path' Hpath) as (a' & rest' & Himages & Ha').
      exists a', rest'. split; [cbn [app]; congruence | exact Ha'].
Qed.

(** ** Accounting of the submitters *)








(** ** From [generate] to the wire *)




(** ** Identities of the image prompts *)

(** X12.  When the next three UUIDs of the source are pairwise different,
    the prompts built for the images carry pairwise different UUIDs on the
    inline images (init image, mask image, depth image), one UUID is minted
    for each of them and none for a reference, the first prompt is the init
    image itself, inline as PNG under the first of these UUIDs and marked as
    the init image, and every reference (alpha mask, inferred depth) points
    to the UUID of that first prompt. *)
Theorem image_prompts_identities `{Libraries}
        (a : GenerateArgs) (im : Image) (w : World)
        (ps : list generation.Prompt) (w' : World) :
  uuid_source w (uuid_calls w) <> uuid_source w (S (uuid_calls w)) ->
  uuid_source w (uuid_calls w) <> uuid_source w (S (S (uuid_calls w))) ->
  uuid_source w (S (uuid_calls w)) <> uuid_source w (S (S (uuid_calls w))) ->
  image_prompts a im w = (Ok ps, w') ->
  NoDup (omap inline_uuid ps) /\
  uuid_calls w' = (uuid_calls w + length (omap inline_uuid ps))%nat /\
  head ps = Some (image_prompt generation.ARTIFACT_IMAGE (uuid_source w (uuid_calls w))
                               (save_png im) true) /\
  (forall p u, p ∈ ps -> referenced_uuid p = Some u -> u = uuid_source w (uuid_calls w)).
Proof.
  intros H01 H02 H12 Hrun. unfold image_prompts in Hrun.
  destruct (arg_mask_image a) as [m |], (arg_mask_from_image_alpha a),
    (arg_depth_image a) as [d |], (arg_depth_from_image a);
    cbn in Hrun; injection Hrun as <- <-; cbn.
  all: split;
    [repeat (apply NoDup_cons; split;
             [rewrite ?not_elem_of_cons; repeat split;
              first [congruence | apply not_elem_of_nil] |]);
     apply NoDup_nil; exact I |].
  all: split; [lia |]. all: split; [reflexivity |].
  all: intros p u Hin Hu;
    repeat (apply elem_of_cons in Hin as [-> | Hin];
            [cbn in Hu; first [discriminate Hu | injection Hu as <-; reflexivity] |]);
    inversion Hin.
Qed.

(** A call with three inline images and one reference: three UUIDs are
    minted, all different, and the reference points to the first. *)
Lemma image_prompts_identities_witness :
  exists ps w',
    @image_prompts Sample.libraries Sample.three_images_args [Byte.x01] Sample.world
    = (Ok ps, w') /\
    omap inline_uuid ps = ["uuid-0"; "uuid-1"; "uuid-2"] /\
    NoDup (omap inline_uuid ps) /\
    uuid_calls w' = 3%nat /\
    head ps = Some (image_prompt generation.ARTIFACT_IMAGE "uuid-0" [Byte.x01] true) /\
    (forall p u, p ∈ ps -> referenced_uuid p = Some u -> u = "uuid-0").
Proof.
  destruct (@image_prompts Sample.libraries Sample.three_images_args [Byte.x01]
              Sample.world) as [[ps | e] w'] eqn:Hrun;
    [| vm_compute in Hrun; discriminate Hrun].
  exists ps, w'. split; [reflexivity |].
  destruct (@image_prompts_identities Sample.libraries Sample.three_images_args
              [Byte.x01] Sample.world ps w' ltac:(discriminate) ltac:(discriminate)
              ltac:(discriminate) Hrun) as (Hnodup & Hcalls & Hhead & Hrefs).
  assert (Hinline : omap inline_uuid ps = ["uuid-0"; "uuid-1"; "uuid-2"]).
  { cbv in Hrun. injection Hrun as <- _. reflexivity. }
  split; [exact Hinline |]. split; [exact Hnodup |].
  split; [rewrite Hcalls, Hinline; reflexivity |].
  split; [exact Hhead | exact Hrefs].
Defined.

(** ** Settings that need an init image *)

(** X13.  Without an init image, [mask_from_image_alpha], [depth_image],
    [depth_from_image], [start_schedule] and [end_schedule] have no effect:
    the call behaves, in result and in effects, as the call with these
    settings at their defaults. *)
Theorem image_options_need_init_image `{Libraries}
        (self : StabilityInference) (a : GenerateArgs) (w : World) :
  arg_init_image a = None ->
  generate self a w = generate self (without_image_options a) w.
Proof.
  intros Hinit. destruct a. cbn in Hinit. subst.
  reflexivity.
Qed.

Lemma image_options_need_init_image_witness :
  @generate Sample.libraries Sample.client Sample.depth_from_image_only_args Sample.world
  = @generate Sample.libraries Sample.client
              (without_image_options Sample.depth_from_image_only_args) Sample.world.
Proof.
  exact (@image_options_need_init_image Sample.libraries Sample.client
           Sample.depth_from_image_only_args Sample.world eq_refl).
Defined.

(** ** LoRA entries with lists of their own *)

Lemma lookup_total_eq (h h' : gmap loc (list float)) (l : loc) :
  h' !! l = h !! l -> h' !!! l = h !!! l.
Proof. intros Heq. rewrite !lookup_total_alt, Heq. reflexivity. Qed.

Lemma own_lora_prompt_open `{Libraries} w path weights f :
  safe_open path = Some f ->
  lora_prompt (serialize_safetensor f) (take 2 (heap w !!! weights))
  = own_lora_prompt w (path, weights).
Proof. intros Hf. unfold own_lora_prompt. cbn [fst snd]. rewrite Hf. reflexivity. Qed.

Lemma lora_loop_own_lists `{Libraries}
      (entries : list (string * loc)) (prompts : list generation.Prompt) (w : World) :
  NoDup entries.*2 ->
  Forall (fun entry : string * loc => is_Some (safe_open entry.1)) entries ->
  exists w',
    for_each entries
      (fun prompts entry =>
         p <- lora_to_prompt entry.1 entry.2 ;; ret (prompts ++ [p])%list)
      prompts w
    = (Ok (prompts ++ map (own_lora_prompt w) entries)%list, w') /\
    (forall entry, entry ∈ entries -> heap w' !!! entry.2 = drop 2 (heap w !!! entry.2)) /\
    (forall l, l ∉ entries.*2 -> heap w' !! l = heap w !! l).
Proof.
  intros Hnodup Hopen. revert prompts w.
  induction Hopen as [| [path weights] entries [f Hf] Hopen IH]; intros prompts w.
  - exists w. cbn. rewrite app_nil_r. repeat split.
    intros entry Hin. inversion Hin.
  - cbn in Hnodup. apply NoDup_cons in Hnodup as [Hfresh Hnodup].
    destruct (lora_to_prompt_run path weights f w Hf) as (w1 & Hrun & Hheap & Hframe).
    rewrite (own_lora_prompt_open w path weights f Hf) in Hrun.
    destruct (IH Hnodup (prompts ++ [own_lora_prompt w (path, weights)])%list w1)
      as (w' & Hloop & Hown & Hother).
    exists w'. split; [| split].
    + cbn [for_each fst snd].
      unfold bind at 1. unfold bind at 1. rewrite Hrun. cbn [ret].
      assert (Hsame : map (own_lora_prompt w1) entries = map (own_lora_prompt w) entries).
      { apply map_ext_in. intros [p l] Hin. unfold own_lora_prompt. cbn [fst snd].
        rewrite (lookup_total_eq (heap w) (heap w1) l); [reflexivity |].
        apply Hframe. intros ->. apply Hfresh.
        apply list_elem_of_fmap. exists (p, weights).
        split; [reflexivity | apply list_elem_of_In; exact Hin]. }
      rewrite Hloop, Hsame, <- app_assoc. reflexivity.
    + intros entry Hin. apply elem_of_cons in Hin as [-> | Hin].
      * cbn [snd]. rewrite <- Hheap. apply lookup_total_eq, Hother. exact Hfresh.
      * rewrite (Hown entry Hin). f_equal. apply lookup_total_eq, Hframe.
        intros Heq. apply Hfresh. rewrite <- Heq.
        apply list_elem_of_fmap. exists entry. split; [reflexivity | exact Hin].
    + intros l Hl. cbn in Hl. apply not_elem_of_cons in Hl as [Hne Hl].
      rewrite (Hother l Hl). apply Hframe. exact Hne.
Qed.

(** X14.  When the LoRA entries hold lists that are different objects and
    their files open, the loop of [generate] gives every entry the prompt
    with the first two weights of its own list, in entry order, takes these
    weights off each entry's list and leaves every other list alone. *)
Theorem lora_prompts_own_lists `{Libraries}
        (entries : list (string * loc)) (prompts : list generation.Prompt)
        (w : World) :
  NoDup entries.*2 ->
  Forall (fun entry : string * loc => is_Some (safe_open entry.1)) entries ->
  exists w',
    lora_prompts (Some entries) prompts w
    = (Ok (prompts ++ map (own_lora_prompt w) entries)%list, w') /\
    (forall entry, entry ∈ entries -> heap w' !!! entry.2 = drop 2 (heap w !!! entry.2)) /\
    (forall l, l ∉ entries.*2 -> heap w' !! l = heap w !! l).
Proof.
  intros Hnodup Hopen. unfold lora_prompts.
  destruct entries as [| entry entries].
  - exists w. cbn. rewrite app_nil_r. repeat split.
    intros entry Hin. inversion Hin.
  - change (truthy (Some (entry :: entries))) with true. cbv iota.
    change (default [] (Some ?l)) with l.
    apply lora_loop_own_lists; assumption.
Qed.

Lemma lora_prompts_own_lists_witness :
  exists w',
    @lora_prompts Sample.libraries
      (Some [("a.safetensors", 1%positive); ("a.safetensors", 2%positive)]) []
      Sample.world
    = (Ok [lora_prompt [] [0.75%float; 0.25%float]; lora_prompt [] []], w') /\
    heap w' !!! 1%positive = [0.5%float].
Proof.
  destruct (@lora_prompts_own_lists Sample.libraries
              [("a.safetensors", 1%positive); ("a.safetensors", 2%positive)] []
              Sample.world)
    as (w' & Hrun & Hown & _).
  - cbn. apply NoDup_cons. split; [| apply NoDup_singleton].
    intros Hin. apply list_elem_of_singleton in Hin. discriminate Hin.
  - repeat constructor; eexists; reflexivity.
  - exists w'. split; [exact Hrun |].
    apply (Hown ("a.safetensors", 1%positive)). apply elem_of_cons. left. reflexivity.
Defined.

(** ** The LoRA specifications of the command line *)

Lemma split_colon_nonempty (s : string) : split_colon s <> [].
Proof.
  induction s as [| c s IH]; cbn [split_colon]; [discriminate |].
  destruct (Ascii.eqb c colon); [discriminate |].
  destruct (split_colon s); discriminate.
Qed.

(** X16.  Splitting a LoRA specification at its colons loses nothing and
    leaves no colon behind: joining the pieces with colons gives the
    specification back, no piece holds a colon, the first piece is the path
    and the others are the weights, and a specification without a colon is
    all path with no weights; so the path used is the text before the first
    colon, and a path that itself contains a colon cannot be given. *)
Theorem split_colon_round_trip (spec : string) :
  join_colon (split_colon spec) = spec /\
  Forall (fun piece => has_colon piece = false) (split_colon spec) /\
  exists path weights,
    split_colon spec = path :: weights /\
    (has_colon spec = false -> path = spec /\ weights = []).
Proof.
  induction spec as [| c spec (Hjoin & Hpieces & path & weights & Hsplit & Hnone)].
  - split; [reflexivity |]. split; [repeat constructor |].
    exists "", []. split; [reflexivity |]. intros _. split; reflexivity.
  - cbn [split_colon has_colon]. destruct (Ascii.eqb_spec c colon) as [-> | Hc].
    + split; [| split].
      * rewrite Hsplit.
        change (join_colon ("" :: path :: weights))
          with (String colon (join_colon (path :: weights))).
        rewrite <- Hsplit, Hjoin. reflexivity.
      * constructor; [reflexivity | exact Hpieces].
      * exists "", (split_colon spec). split; [reflexivity |]. discriminate.
    + rewrite Hsplit in *. split; [| split].
      * rewrite <- Hjoin. destruct weights; reflexivity.
      * inversion Hpieces as [| ? ? Hp Hw]; subst. constructor; [| exact Hw].
        cbn [has_colon]. rewrite Hp.
        destruct (Ascii.eqb_spec c colon); [congruence | reflexivity].
      * exists (String c path), weights. split; [reflexivity |].
        destruct (Ascii.eqb_spec c colon) as [| _]; [congruence |].
        cbn [orb]. intros Hno. destruct (Hnone Hno) as [-> ->].
        split; reflexivity.
Qed.

Lemma new_list_run (ws : list float) (w : World) :
  exists l w',
    new_list ws w = (Ok l, w') /\
    (l ∉ dom (heap w)) /\
    heap w' = <[l := ws]> (heap w).
Proof.
  unfold new_list. do 2 eexists. split; [reflexivity |].
  split; [apply is_fresh | reflexivity].
Qed.

Lemma cli_lora_loop (float_of_str : string -> option float)
      (specs : list string) (parsed : list (string * list float))
      (acc : list (string * loc)) (w : World) :
  Forall2 (fun spec pr => returned (parse_lora_spec float_of_str spec) = Some pr)
          specs parsed ->
  exists entries w',
    for_each specs
      (fun lora spec =>
         match parse_lora_spec float_of_str spec with
         | Ok (path, weights) =>
             weights <- new_list weights ;;
             ret (lora ++ [(path, weights)])%list
         | Raise e => raise e
         end)
      acc w
    = (Ok (acc ++ entries)%list, w') /\
    Forall2 (fun pr (entry : string * loc) =>
               entry.1 = pr.1 /\ heap w' !! entry.2 = Some pr.2)
            parsed entries /\
    NoDup entries.*2 /\
    (forall l, l ∈ entries.*2 -> l ∉ dom (heap w)) /\
    (forall l, l ∈ dom (heap w) -> heap w' !! l = heap w !! l).
Proof.
  intros Hparsed. revert acc w.
  induction Hparsed as [| spec [path ws] specs parsed Hspec Hparsed IH]; intros acc w.
  - exists [], w. cbn. rewrite app_nil_r. split; [reflexivity |].
    split; [constructor |]. split; [constructor |].
    split; [intros l Hl; inversion Hl | reflexivity].
  - cbn [for_each].
    destruct (parse_lora_spec float_of_str spec) as [[path' ws'] | e] eqn:Hparse;
      [| discriminate Hspec].
    cbn in Hspec. injection Hspec as -> ->.
    destruct (new_list_run ws w) as (l & w1 & Hnew & Hfresh & Hheap1).
    destruct (IH (acc ++ [(path, l)])%list w1)
      as (entries & w' & Hloop & Hentries & Hnodup & Hnew' & Hold).
    exists ((path, l) :: entries), w'.
    assert (Hl1 : l ∈ dom (heap w1)).
    { rewrite Hheap1. apply elem_of_dom. rewrite lookup_insert_eq. eexists. reflexivity. }
    split; [| split; [| split; [| split]]].
    + unfold bind at 1. unfold bind at 1. rewrite Hnew. cbn [ret].
      rewrite Hloop, <- app_assoc. reflexivity.
    + constructor; [| exact Hentries]. cbn [fst snd]. split; [reflexivity |].
      rewrite (Hold l Hl1), Hheap1. apply lookup_insert_eq.
    + cbn. apply NoDup_cons. split; [| exact Hnodup].
      intros Hin. exact (Hnew' l Hin Hl1).
    + intros l' Hin Hdom. cbn in Hin. apply elem_of_cons in Hin as [-> | Hin].
      * exact (Hfresh Hdom).
      * apply (Hnew' l' Hin). rewrite Hheap1. apply elem_of_dom.
        apply elem_of_dom in Hdom as [x Hx].
        destruct (decide (l = l')) as [-> | Hne].
        -- rewrite lookup_insert_eq. eexists. reflexivity.
        -- rewrite lookup_insert_ne by exact Hne. eexists. exact Hx.
    + intros l' Hdom.
      assert (Hne : l <> l') by (intros ->; exact (Hfresh Hdom)).
      rewrite Hold.
      * rewrite Hheap1. apply lookup_insert_ne. exact Hne.
      * rewrite Hheap1. apply elem_of_dom. rewrite lookup_insert_ne by exact Hne.
        apply elem_of_dom in Hdom. exact Hdom.
Qed.

(** X17.  From the command line to the prompts: when every LoRA
    specification parses (its weights are numbers) and its file opens, the
    command line builds one entry per specification, each with a list
    object of its own, and the loop of [generate] over these entries appends,
    in order, one prompt per specification that carries the payload of the
    file named before the first colon and the first two of its weights,
    named [unet] and [text_encoder]; further weights are ignored, and no
    list that existed before is touched. *)
Theorem cli_lora_then_prompts `{Libraries} (float_of_str : string -> option float)
        (specs : list string) (parsed : list (string * list float))
        (prompts : list generation.Prompt) (w : World) :
  Forall2 (fun spec pr => returned (parse_lora_spec float_of_str spec) = Some pr)
          specs parsed ->
  Forall (fun pr : string * list float => is_Some (safe_open pr.1)) parsed ->
  exists entries w1 w2,
    cli_lora float_of_str (Some specs) w = (Ok entries, w1) /\
    entries.*1 = parsed.*1 /\
    lora_prompts (Some entries) prompts w1
    = (Ok (prompts ++ map parsed_lora_prompt parsed)%list, w2) /\
    (forall l, l ∈ dom (heap w) -> heap w2 !! l = heap w !! l).
Proof.
  intros Hparsed Hopen.
  destruct (cli_lora_loop float_of_str specs parsed [] w Hparsed)
    as (entries & w1 & Hloop & Hentries & Hnodup & Hnew & Hold).
  cbn [app] in Hloop.
  assert (Hnames : entries.*1 = parsed.*1).
  { clear -Hentries. induction Hentries as [| pr entry parsed entries [He _] _ IH];
      [reflexivity |]. cbn. rewrite He, IH. reflexivity. }
  assert (Hopen' : Forall (fun entry : string * loc => is_Some (safe_open entry.1)) entries).
  { clear -Hentries Hopen. induction Hentries as [| pr entry parsed entries [He _] _ IH];
      [constructor |]. inversion Hopen; subst. constructor; [rewrite He; assumption |].
    apply IH. assumption. }
  assert (Hprompts : map (own_lora_prompt w1) entries = map parsed_lora_prompt parsed).
  { clear -Hentries. induction Hentries as [| pr entry parsed entries [He Hl] _ IH];
      [reflexivity |]. cbn [map]. rewrite IH. f_equal.
    unfold own_lora_prompt, parsed_lora_prompt.
    rewrite He, (lookup_total_correct _ _ _ Hl). reflexivity. }
  destruct (lora_loop_own_lists entries prompts w1 Hnodup Hopen')
    as (w2 & Hrun & _ & Hother).
  exists entries, w1, w2. split; [| split; [exact Hnames | split]].
  - unfold cli_lora. destruct specs as [| spec specs].
    + inversion Hparsed; subst. cbn in Hloop. injection Hloop as <- <-. reflexivity.
    + change (truthy (Some (spec :: specs))) with true. cbv iota.
      change (default [] (Some ?l)) with l. exact Hloop.
  - unfold lora_prompts. rewrite <- Hprompts. destruct entries as [| entry entries'].
    + cbn in *. injection Hrun as <- <-. reflexivity.
    + change (truthy (Some (entry :: entries'))) with true. cbv iota.
      change (default [] (Some ?l)) with l. exact Hrun.
  - intros l Hl. rewrite Hother; [exact (Hold l Hl) |].
    intros Hin. exact (Hnew l Hin Hl).
Qed.

Lemma cli_lora_then_prompts_witness :
  exists entries w1 w2,
    cli_lora sample_float_of_str (Some ["a.safetensors:0.75:0.25:0.5"]) Sample.world
    = (Ok entries, w1) /\
    @lora_prompts Sample.libraries (Some entries) [] w1
    = (Ok [lora_prompt [] [0.75%float; 0.25%float]], w2).
Proof.
  destruct (@cli_lora_then_prompts Sample.libraries sample_float_of_str
              ["a.safetensors:0.75:0.25:0.5"]
              [("a.safetensors", [0.75%float; 0.25%float; 0.5%float])]
              [] Sample.world)
    as (entries & w1 & w2 & Hcli & _ & Hrun & _).
  - repeat constructor.
  - repeat constructor. eexists. reflexivity.
  - exists entries, w1, w2. split; [exact Hcli | exact Hrun].
Defined.
